(** * QgsDistanceArea: distance and area calculations on the ellipsoid

    A shallow embedding of [src/core/qgsdistancearea.cpp] and the properties
    its specification states about it.

    Conventions of the embedding.
    - A C++ [double] is a real number ([R]): arithmetic is exact, there is
      no rounding, no infinity and no NaN.  Comparisons are the boolean
      tests [Rltb], [Rgtb], ... so that the control flow reads like the
      source.  Where the doubles part from the reals in kind, and not by
      rounding, the statements stay where the two agree: that the unwrap
      loops end is stated for longitudes within [unwrapLimit] and
      [longitudeLimit], far below the size from which a double absorbs
      the turn added to it; signs and values of ellipsoidal areas are
      stated for a semi-major axis other than 0, the divisor in
      [computeAreaInit]; and the exit test of the direct problem, whose
      divisor is 0 for a distance of 0, is [sigmaMoved], which decides
      that case as the doubles do.
    - The member variables of the class are the fields of the record
      [QgsDistanceArea]; a method that mutates [this] takes the record and
      returns the new one.
    - Code the file calls but does not define (qgis.h helpers, the unit
      table, the coordinate transform, QgsPointXY's geometry helpers, the
      geodesic library of geodesic.h, the ellipsoid catalogue) is the
      interface [Collaborators]; every theorem holds for any implementation
      of it.
    - A loop with a counter in the source ([iterLimit], [i], [iterations])
      is a structural recursion that carries the counter; the two
      longitude-unwrapping [while] loops of the area kernel have no counter
      and take fuel. *)

From Stdlib Require Import Reals Lra Lia List ZArith String Bool.
Import ListNotations.

Open Scope R_scope.

(* ================================================================= *)
(** ** Numbers *)

Definition Rltb (a b : R) : bool := if Rlt_dec a b then true else false.
Definition Rgtb (a b : R) : bool := Rltb b a.
Definition Rleb (a b : R) : bool := if Rle_dec a b then true else false.
Definition Rgeb (a b : R) : bool := Rleb b a.

(** <cmath> *)
Definition M_PI : R := PI.
Definition M_PI_2 : R := PI / 2.
Definition fabs (v : R) : R := Rabs v.

(** [std::atan2( y, x )] on the reals. *)
Definition atan2 (y x : R) : R :=
  if Rgtb x 0 then atan (y / x)
  else if Rltb x 0 then
    (if Rgeb y 0 then atan (y / x) + PI else atan (y / x) - PI)
  else if Rgtb y 0 then PI / 2
  else if Rltb y 0 then - (PI / 2)
  else 0.

(** The macros of the file. *)
Definition DEG2RAD (v : R) : R := v * M_PI / 180.
Definition RAD2DEG (r : R) : R := 180.0 * r / M_PI.
Definition POW2 (v : R) : R := v * v.

(* ================================================================= *)
(** ** Data model *)

(** [QgsPointXY( x, y )] with its accessors [x()] and [y()]. *)
Record QgsPointXY : Type := mkPointXY { px : R; py : R }.

(** Modelled from the spec: the default constructor of QgsPointXY
    (qgspointxy.h is not among the sources); the specification's note on
    [measureLineProjected] reads it as the default-initialized point (0, 0). *)
Definition QgsPointXY_default : QgsPointXY := mkPointXY 0 0.

(** Stand-in for [QgsUnitTypes::DistanceUnit] (qgsunittypes.h is not among
    the sources); the file itself names only [DistanceMeters]. *)
Inductive DistanceUnit : Type :=
| DistanceMeters
| DistanceKilometers
| DistanceFeet
| DistanceDegrees
| DistanceUnknownUnit.

Definition DistanceUnit_eqb (u v : DistanceUnit) : bool :=
  match u, v with
  | DistanceMeters, DistanceMeters
  | DistanceKilometers, DistanceKilometers
  | DistanceFeet, DistanceFeet
  | DistanceDegrees, DistanceDegrees
  | DistanceUnknownUnit, DistanceUnknownUnit => true
  | _, _ => false
  end.

(** What the file asks of a [QgsCoordinateReferenceSystem]. *)
Record QgsCoordinateReferenceSystem : Type := mkCrs {
  isGeographic : bool;
  mapUnits : DistanceUnit
}.

(** [QgsEllipsoidUtils::EllipsoidParameters], without the datum CRS (it
    only parameterises the coordinate transform, which is a collaborator). *)
Record EllipsoidParameters : Type := mkEllipsoidParameters {
  valid : bool;
  useCustomParameters : bool;
  semiMajor : R;
  semiMinor : R;
  inverseFlattening : R
}.

(** The members of [QgsDistanceArea]. *)
Record QgsDistanceArea : Type := mkDistanceArea {
  mSourceCrs : QgsCoordinateReferenceSystem;
  mEllipsoid : string;
  mSemiMajor : R;
  mSemiMinor : R;
  mInvFlattening : R;
  m_QA : R; m_QB : R; m_QC : R;
  m_QbarA : R; m_QbarB : R; m_QbarC : R; m_QbarD : R;
  m_AE : R;
  m_Qp : R;
  m_E : R;
  m_TwoPI : R
}.

(** Modelled from the spec: the constant [GEO_NONE] of qgis.h, the
    ellipsoid id NONE that disables ellipsoidal mode. *)
Definition GEO_NONE : string := "NONE".

(** The code this file calls and does not define. *)
Class Collaborators : Type := {
  (** qgis.h *)
  qgsDoubleNear : R -> R -> bool;
  qgsDoubleToString : R -> string;
  (** QgsEllipsoidUtils::ellipsoidParameters *)
  ellipsoidParameters : string -> EllipsoidParameters;
  (** QgsCoordinateTransform::transform; [None] is a thrown QgsCsException *)
  transform : QgsPointXY -> option QgsPointXY;
  (** QgsUnitTypes::fromUnitToUnitFactor *)
  fromUnitToUnitFactor : DistanceUnit -> DistanceUnit -> R;
  (** QgsPointXY::distance and QgsPointXY::project *)
  QgsPointXY_distance : QgsPointXY -> QgsPointXY -> R;
  QgsPointXY_project : QgsPointXY -> R -> R -> QgsPointXY;
  (** geodesic.h: [geod_init] followed by [geod_inverseline] (semi-major
      axis, flattening, lat1, lon1, lat2, lon2), the line's [s13], and
      [geod_position], which yields (lat, lon) *)
  geod_geodesicline : Type;
  geod_inverseline : R -> R -> R -> R -> R -> R -> geod_geodesicline;
  s13 : geod_geodesicline -> R;
  geod_position : geod_geodesicline -> R -> R * R
}.

(* ================================================================= *)
(** ** Ellipsoid and derived constants *)

Definition willUseEllipsoid (d : QgsDistanceArea) : bool :=
  negb (String.eqb (mEllipsoid d) GEO_NONE).

Definition getQ (d : QgsDistanceArea) (v : R) : R :=
  let sinx := sin v in
  let sinx2 := sinx * sinx in
  sinx * (1 + sinx2 * (m_QA d + sinx2 * (m_QB d + sinx2 * m_QC d))).

Definition getQbar (d : QgsDistanceArea) (v : R) : R :=
  let cosx := cos v in
  let cosx2 := cosx * cosx in
  cosx * (m_QbarA d + cosx2 * (m_QbarB d + cosx2 * (m_QbarC d + cosx2 * m_QbarD d))).

(** The assignments of [computeAreaInit] up to [m_QbarD]. *)
Definition withSeries (d : QgsDistanceArea)
    (TwoPI AE QA QB QC QbarA QbarB QbarC QbarD : R) : QgsDistanceArea :=
  mkDistanceArea (mSourceCrs d) (mEllipsoid d)
    (mSemiMajor d) (mSemiMinor d) (mInvFlattening d)
    QA QB QC QbarA QbarB QbarC QbarD AE (m_Qp d) (m_E d) TwoPI.

Definition with_Qp (d : QgsDistanceArea) (Qp : R) : QgsDistanceArea :=
  mkDistanceArea (mSourceCrs d) (mEllipsoid d)
    (mSemiMajor d) (mSemiMinor d) (mInvFlattening d)
    (m_QA d) (m_QB d) (m_QC d) (m_QbarA d) (m_QbarB d) (m_QbarC d) (m_QbarD d)
    (m_AE d) Qp (m_E d) (m_TwoPI d).

Definition with_E (d : QgsDistanceArea) (E : R) : QgsDistanceArea :=
  mkDistanceArea (mSourceCrs d) (mEllipsoid d)
    (mSemiMajor d) (mSemiMinor d) (mInvFlattening d)
    (m_QA d) (m_QB d) (m_QC d) (m_QbarA d) (m_QbarB d) (m_QbarC d) (m_QbarD d)
    (m_AE d) (m_Qp d) E (m_TwoPI d).

Definition with_ellipsoid (d : QgsDistanceArea) (id : string) : QgsDistanceArea :=
  mkDistanceArea (mSourceCrs d) id
    (mSemiMajor d) (mSemiMinor d) (mInvFlattening d)
    (m_QA d) (m_QB d) (m_QC d) (m_QbarA d) (m_QbarB d) (m_QbarC d) (m_QbarD d)
    (m_AE d) (m_Qp d) (m_E d) (m_TwoPI d).

Definition with_axes (d : QgsDistanceArea) (a b invf : R) : QgsDistanceArea :=
  mkDistanceArea (mSourceCrs d) (mEllipsoid d) a b invf
    (m_QA d) (m_QB d) (m_QC d) (m_QbarA d) (m_QbarB d) (m_QbarC d) (m_QbarD d)
    (m_AE d) (m_Qp d) (m_E d) (m_TwoPI d).

Definition with_sourceCrs (d : QgsDistanceArea)
    (crs : QgsCoordinateReferenceSystem) : QgsDistanceArea :=
  mkDistanceArea crs (mEllipsoid d)
    (mSemiMajor d) (mSemiMinor d) (mInvFlattening d)
    (m_QA d) (m_QB d) (m_QC d) (m_QbarA d) (m_QbarB d) (m_QbarC d) (m_QbarD d)
    (m_AE d) (m_Qp d) (m_E d) (m_TwoPI d).

(** [computeAreaInit].  Its one division is by [a2]: for a semi-major
    axis of 0 the doubles of the source leave [e2] infinite or not a
    number and [m_AE], [m_Qp] and [m_E] not numbers, where the reals give
    numbers; the theorems about the sign and the value of an area take the
    axis other than 0. *)
Definition computeAreaInit (d : QgsDistanceArea) : QgsDistanceArea :=
  (* don't try to perform calculations if no ellipsoid *)
  if String.eqb (mEllipsoid d) GEO_NONE then d
  else
    let a2 := mSemiMajor d * mSemiMajor d in
    let e2 := 1 - (mSemiMinor d * mSemiMinor d) / a2 in
    let e4 := e2 * e2 in
    let e6 := e4 * e2 in
    let d1 :=
      withSeries d
        (M_PI + M_PI)
        (a2 * (1 - e2))
        ((2.0 / 3.0) * e2)
        ((3.0 / 5.0) * e4)
        ((4.0 / 7.0) * e6)
        (-1.0 - (2.0 / 3.0) * e2 - (3.0 / 5.0) * e4 - (4.0 / 7.0) * e6)
        ((2.0 / 9.0) * e2 + (2.0 / 5.0) * e4 + (4.0 / 7.0) * e6)
        (- (3.0 / 25.0) * e4 - (12.0 / 35.0) * e6)
        ((4.0 / 49.0) * e6) in
    let d2 := with_Qp d1 (getQ d1 M_PI_2) in
    let E := 4 * M_PI * m_Qp d2 * m_AE d2 in
    with_E d2 (if Rltb E 0.0 then - E else E).

Section Ellipsoid.
Context {collab : Collaborators}.

(** [setEllipsoid( double semiMajor, double semiMinor )]: the new state
    and the returned boolean. *)
Definition setEllipsoid_ab (d : QgsDistanceArea) (a b : R)
  : QgsDistanceArea * bool :=
  let d1 :=
    with_ellipsoid d
      ("PARAMETER:" ++ qgsDoubleToString a ++ ":" ++ qgsDoubleToString b)%string in
  let d2 := with_axes d1 a b (a / (a - b)) in
  (computeAreaInit d2, true).

(** [setFromParams]; the destination CRS it hands to the coordinate
    transform is part of the collaborator. *)
Definition setFromParams (d : QgsDistanceArea) (params : EllipsoidParameters)
  : QgsDistanceArea :=
  if useCustomParameters params then
    fst (setEllipsoid_ab d (semiMajor params) (semiMinor params))
  else
    computeAreaInit
      (with_axes d (semiMajor params) (semiMinor params) (inverseFlattening params)).

(** [setEllipsoid( const QString &ellipsoid )] *)
Definition setEllipsoid_id (d : QgsDistanceArea) (ellipsoid : string)
  : QgsDistanceArea * bool :=
  if String.eqb ellipsoid GEO_NONE then (with_ellipsoid d GEO_NONE, true)
  else
    let params := ellipsoidParameters ellipsoid in
    if negb (valid params) then (d, false)
    else (setFromParams (with_ellipsoid d ellipsoid) params, true).

Definition setSourceCrs (d : QgsDistanceArea)
    (srcCRS : QgsCoordinateReferenceSystem) : QgsDistanceArea :=
  with_sourceCrs d srcCRS.

End Ellipsoid.

(* ================================================================= *)
(** ** Vincenty inverse: [computeDistanceBearing] *)

(** The locals the lambda iteration reads and writes. *)
Record VincentyState : Type := mkVincenty {
  v_lambda : R;
  v_lambdaP : R;
  v_sinLambda : R;
  v_cosLambda : R;
  v_sinSigma : R;
  v_cosSigma : R;
  v_sigma : R;
  v_alpha : R;
  v_cosSqAlpha : R;
  v_cos2SigmaM : R;
  v_C : R;
  v_tu1 : R;
  v_tu2 : R
}.

(** The locals as declared before the loop: [lambda = L],
    [lambdaP = 2 * M_PI], everything else 0. *)
Definition vincentyInit (L : R) : VincentyState :=
  mkVincenty L (2 * M_PI) 0 0 0 0 0 0 0 0 0 0 0.

(** One execution of the loop body (one lambda update). *)
Definition vincentyStep (f L sinU1 cosU1 sinU2 cosU2 : R) (s : VincentyState)
  : VincentyState :=
  let sinLambda := sin (v_lambda s) in
  let cosLambda := cos (v_lambda s) in
  let tu1 := cosU2 * sinLambda in
  let tu2 := cosU1 * sinU2 - sinU1 * cosU2 * cosLambda in
  let sinSigma := sqrt (tu1 * tu1 + tu2 * tu2) in
  let cosSigma := sinU1 * sinU2 + cosU1 * cosU2 * cosLambda in
  let sigma := atan2 sinSigma cosSigma in
  let alpha := asin (cosU1 * cosU2 * sinLambda / sinSigma) in
  let cosSqAlpha := cos alpha * cos alpha in
  let cos2SigmaM := cosSigma - 2 * sinU1 * sinU2 / cosSqAlpha in
  let C := f / 16 * cosSqAlpha * (4 + f * (4 - 3 * cosSqAlpha)) in
  let lambdaP := v_lambda s in
  let lambda :=
    L + (1 - C) * f * sin alpha *
        (sigma + C * sinSigma *
                 (cos2SigmaM + C * cosSigma * (-1 + 2 * cos2SigmaM * cos2SigmaM))) in
  mkVincenty lambda lambdaP sinLambda cosLambda sinSigma cosSigma sigma alpha
             cosSqAlpha cos2SigmaM C tu1 tu2.

(** The loop's first test, [std::fabs( lambda - lambdaP ) > 1e-12]. *)
Definition notConverged (s : VincentyState) : bool :=
  Rgtb (fabs (v_lambda s - v_lambdaP s)) 1e-12.

(** [while ( std::fabs( lambda - lambdaP ) > 1e-12 && --iterLimit > 0 ) body]

    [iterLimit] is the source's counter; [&&] short-circuits, so it is
    decremented only when the first test holds.  [n] counts the executions
    of the body.  The result is the counter, the locals and the count when
    the loop is left.  [gas] bounds the recursion: the caller passes the
    initial value of the counter, which is never used up
    ([lambdaLoop_gas]). *)
Fixpoint lambdaLoop (gas : nat) (body : VincentyState -> VincentyState)
    (iterLimit : Z) (s : VincentyState) (n : nat) : Z * VincentyState * nat :=
  match gas with
  | O => (iterLimit, s, n)
  | S gas' =>
      if notConverged s then
        let iterLimit' := (iterLimit - 1)%Z in
        if (iterLimit' >? 0)%Z then lambdaLoop gas' body iterLimit' (body s) (S n)
        else (iterLimit', s, n)
      else (iterLimit, s, n)
  end.

(** The quantities computed before the loop. *)
Record VincentySetup : Type := mkVincentySetup {
  vs_f : R; vs_L : R;
  vs_sinU1 : R; vs_cosU1 : R; vs_sinU2 : R; vs_cosU2 : R
}.

Definition vincentySetup (d : QgsDistanceArea) (p1 p2 : QgsPointXY) : VincentySetup :=
  let f := 1 / mInvFlattening d in
  let p1_lat := DEG2RAD (py p1) in
  let p1_lon := DEG2RAD (px p1) in
  let p2_lat := DEG2RAD (py p2) in
  let p2_lon := DEG2RAD (px p2) in
  let L := p2_lon - p1_lon in
  let U1 := atan ((1 - f) * tan p1_lat) in
  let U2 := atan ((1 - f) * tan p2_lat) in
  mkVincentySetup f L (sin U1) (cos U1) (sin U2) (cos U2).

Definition vincentyBody (su : VincentySetup) : VincentyState -> VincentyState :=
  vincentyStep (vs_f su) (vs_L su) (vs_sinU1 su) (vs_cosU1 su) (vs_sinU2 su) (vs_cosU2 su).

(** The locals after [k] executions of the body. *)
Definition lambdaIterate (body : VincentyState -> VincentyState)
    (s0 : VincentyState) (k : nat) : VincentyState :=
  Nat.iter k body s0.

(** The loop as [computeDistanceBearing] runs it: [int iterLimit = 20]. *)
Definition vincentyIterate (d : QgsDistanceArea) (p1 p2 : QgsPointXY)
  : Z * VincentyState * nat :=
  let su := vincentySetup d p1 p2 in
  lambdaLoop 20 (vincentyBody su) 20 (vincentyInit (vs_L su)) 0.

Section Vincenty.
Context {collab : Collaborators}.

(** The returned distance, and the values stored through [course1] and
    [course2] ([None] on the paths that return before the stores). *)
Definition computeDistanceBearing (d : QgsDistanceArea) (p1 p2 : QgsPointXY)
  : R * option (R * R) :=
  if qgsDoubleNear (px p1) (px p2) && qgsDoubleNear (py p1) (py p2) then (0, None)
  else
    let a := mSemiMajor d in
    let b := mSemiMinor d in
    let su := vincentySetup d p1 p2 in
    let '(iterLimit, s, _) := vincentyIterate d p1 p2 in
    if (iterLimit =? 0)%Z then (-1, None) (* formula failed to converge *)
    else
      let cosSqAlpha := v_cosSqAlpha s in
      let sinSigma := v_sinSigma s in
      let cosSigma := v_cosSigma s in
      let cos2SigmaM := v_cos2SigmaM s in
      let uSq := cosSqAlpha * (a * a - b * b) / (b * b) in
      let A := 1 + uSq / 16384 * (4096 + uSq * (-768 + uSq * (320 - 175 * uSq))) in
      let B := uSq / 1024 * (256 + uSq * (-128 + uSq * (74 - 47 * uSq))) in
      let deltaSigma :=
        B * sinSigma *
        (cos2SigmaM +
         B / 4 * (cosSigma * (-1 + 2 * cos2SigmaM * cos2SigmaM) -
                  B / 6 * cos2SigmaM * (-3 + 4 * sinSigma * sinSigma) *
                  (-3 + 4 * cos2SigmaM * cos2SigmaM))) in
      let s_ := b * A * (v_sigma s - deltaSigma) in
      let course1 := atan2 (v_tu1 s) (v_tu2 s) in
      (* PI is added to return azimuth from P2 to P1 *)
      let course2 :=
        atan2 (vs_cosU1 su * v_sinLambda s)
              (- vs_sinU1 su * vs_cosU2 su + vs_cosU1 su * vs_sinU2 su * v_cosLambda s)
        + M_PI in
      (s_, Some (course1, course2)).

End Vincenty.

(* ================================================================= *)
(** ** Vincenty direct: [computeSpheroidProject] *)

Record ProjectState : Type := mkProject {
  ps_sigma : R;
  ps_last_sigma : R;
  ps_delta_sigma : R;
  ps_two_sigma_m : R;
  ps_i : Z
}.

(** The body of the [do ... while]. *)
Definition projectStep (distance b A B sigma1 : R) (s : ProjectState) : ProjectState :=
  let sigma := ps_sigma s in
  let two_sigma_m := 2.0 * sigma1 + sigma in
  let delta_sigma :=
    B * sin sigma *
    (cos two_sigma_m +
     (B / 4.0) *
     (cos sigma *
      (-1.0 + 2.0 * POW2 (cos two_sigma_m) -
       (B / 6.0) * cos two_sigma_m * (-3.0 + 4.0 * POW2 (sin sigma)) *
       (-3.0 + 4.0 * POW2 (cos two_sigma_m))))) in
  let last_sigma := sigma in
  let sigma' := (distance / (b * A)) + delta_sigma in
  mkProject sigma' last_sigma delta_sigma two_sigma_m (ps_i s + 1)%Z.

(** [std::fabs( ( last_sigma - sigma ) / sigma ) > 1.0e-9] as the doubles
    decide it.  The divisor can be zero (it is for [distance] 0): the
    quotient is then an infinity, which is greater than the tolerance,
    unless [last_sigma] is zero too, when the quotient is not a number and
    the comparison is false. *)
Definition sigmaMoved (last_sigma sigma : R) : bool :=
  if Req_dec_T sigma 0 then
    if Req_dec_T last_sigma 0 then false else true
  else Rgtb (fabs ((last_sigma - sigma) / sigma)) 1.0e-9.

(** [do body while ( i < 999 && std::fabs( ( last_sigma - sigma ) / sigma ) > 1.0e-9 )];
    [gas] is 999 at the call, one unit per execution of the body. *)
Fixpoint sigmaLoop (gas : nat) (body : ProjectState -> ProjectState) (s : ProjectState)
  : ProjectState :=
  match gas with
  | O => s
  | S gas' =>
      let s' := body s in
      if (ps_i s' <? 999)%Z && sigmaMoved (ps_last_sigma s') (ps_sigma s')
      then sigmaLoop gas' body s'
      else s'
  end.

Definition computeSpheroidProject (d : QgsDistanceArea) (p1 : QgsPointXY)
    (distance azimuth : R) : QgsPointXY :=
  (* ellipsoid *)
  let a := mSemiMajor d in
  let b := mSemiMinor d in
  let f := 1 / mInvFlattening d in
  if (Rltb a 0 && Rltb b 0)
     || (Rltb (px p1) (-180.0) || Rgtb (px p1) 180.0
         || Rltb (py p1) (-85.05115) || Rgtb (py p1) 85.05115)
  then
    (* latitudes outside these bounds cause the calculations to become
       unstable and can return invalid results *)
    mkPointXY 0 0
  else
    let radians_lat := DEG2RAD (py p1) in
    let radians_long := DEG2RAD (px p1) in
    let b2 := POW2 b in
    let omf := 1 - f in
    let tan_u1 := omf * tan radians_lat in
    let u1 := atan tan_u1 in
    let azimuth := if Rltb azimuth 0.0 then azimuth + M_PI * 2.0 else azimuth in
    let azimuth := if Rgtb azimuth (M_PI * 2.0) then azimuth - M_PI * 2.0 else azimuth in
    let sigma1 := atan2 tan_u1 (cos azimuth) in
    let sin_alpha := cos u1 * sin azimuth in
    let alpha := asin sin_alpha in
    let cos_alphasq := 1.0 - POW2 sin_alpha in
    let u2 := POW2 (cos alpha) * (POW2 a - b2) / b2 in
    let A := 1.0 + (u2 / 16384.0) * (4096.0 + u2 * (-768.0 + u2 * (320.0 - 175.0 * u2))) in
    let B := (u2 / 1024.0) * (256.0 + u2 * (-128.0 + u2 * (74.0 - 47.0 * u2))) in
    let sigma0 := distance / (b * A) in
    (* last_sigma, delta_sigma and two_sigma_m are first written by the body *)
    let s := sigmaLoop 999 (projectStep distance b A B sigma1) (mkProject sigma0 0 0 0 0) in
    let sigma := ps_sigma s in
    let two_sigma_m := ps_two_sigma_m s in
    let lat2 :=
      atan2 (sin u1 * cos sigma + cos u1 * sin sigma * cos azimuth)
            (omf * sqrt (POW2 sin_alpha +
                         POW2 (sin u1 * sin sigma - cos u1 * cos sigma * cos azimuth))) in
    let lambda :=
      atan2 (sin sigma * sin azimuth)
            (cos u1 * cos sigma - sin u1 * sin sigma * cos azimuth) in
    let C := (f / 16.0) * cos_alphasq * (4.0 + f * (4.0 - 3.0 * cos_alphasq)) in
    let omega :=
      lambda - (1.0 - C) * f * sin_alpha *
               (sigma + C * sin sigma *
                        (cos two_sigma_m +
                         C * cos sigma * (-1.0 + 2.0 * POW2 (cos two_sigma_m)))) in
    let lambda2 := radians_long + omega in
    mkPointXY (RAD2DEG lambda2) (RAD2DEG lat2).

(* ================================================================= *)
(** ** Measuring lines *)

(** A computation that may call the coordinate transform: the points it
    handed to [transform], in call order, and its value, [None] when a
    QgsCsException is propagating. *)
Definition Eff (A : Type) : Type := (list QgsPointXY * option A)%type.

Definition ret {A : Type} (a : A) : Eff A := ([], Some a).

Definition bind {A B : Type} (m : Eff A) (k : A -> Eff B) : Eff B :=
  match m with
  | (calls, None) => (calls, None)
  | (calls, Some a) => let (calls', r) := k a in (calls ++ calls', r)
  end.

(** [try { m } catch ( QgsCsException & ) { handler }] *)
Definition tryCatch {A : Type} (m : Eff A) (handler : A) : Eff A :=
  match m with
  | (calls, None) => (calls, Some handler)
  | (calls, Some a) => (calls, Some a)
  end.

Declare Scope eff_scope.
Delimit Scope eff_scope with eff.
Notation "x <- m ;; k" := (bind m (fun x => k))
  (at level 61, m at next level, right associativity) : eff_scope.

Definition transformCalls {A : Type} (m : Eff A) : list QgsPointXY := fst m.
Definition returned {A : Type} (m : Eff A) : option A := snd m.

Section Lines.
Context {collab : Collaborators}.

Definition callTransform (p : QgsPointXY) : Eff QgsPointXY := ([p], transform p).

(** [measureLine( const QgsPointXY &p1, const QgsPointXY &p2 )] *)
Definition measureLine_p1p2 (d : QgsDistanceArea) (p1 p2 : QgsPointXY) : Eff R :=
  tryCatch
    (if willUseEllipsoid d then
       (pp1 <- callTransform p1 ;;
        pp2 <- callTransform p2 ;;
        ret (fst (computeDistanceBearing d pp1 pp2)))%eff
     else
       ret (QgsPointXY_distance p2 p1))
    0.0.

(** The [for] loop of [measureLine( const QVector<QgsPointXY> & )] over the
    points still to visit. *)
Fixpoint measureLine_loop (d : QgsDistanceArea) (points : list QgsPointXY)
    (p1 : QgsPointXY) (total : R) : Eff R :=
  match points with
  | [] => ret total
  | i :: points' =>
      if willUseEllipsoid d then
        (p2 <- callTransform i ;;
         measureLine_loop d points' p2 (total + fst (computeDistanceBearing d p1 p2)))%eff
      else
        (r <- measureLine_p1p2 d p1 i ;;
         measureLine_loop d points' i (total + r))%eff
  end.

(** [measureLine( const QVector<QgsPointXY> &points )] *)
Definition measureLine_points (d : QgsDistanceArea) (points : list QgsPointXY)
  : Eff R :=
  if (List.length points <? 2)%nat then ret 0
  else
    tryCatch
      (p1 <- (if willUseEllipsoid d
              then callTransform (nth 0 points QgsPointXY_default)
              else ret (nth 0 points QgsPointXY_default)) ;;
       measureLine_loop d points p1 0)%eff
      0.0.

(** [measureLineProjected]: the returned distance and the point stored
    through [projectedPoint]. *)
Definition measureLineProjected (d : QgsDistanceArea) (p1 : QgsPointXY)
    (distance azimuth : R) : R * QgsPointXY :=
  let p2 := QgsPointXY_default in
  if isGeographic (mSourceCrs d) && willUseEllipsoid d then
    let p2 := computeSpheroidProject d p1 distance azimuth in
    let result := QgsPointXY_distance p1 p2 in
    (result, p2)
  else (* Cartesian coordinates *)
    let result := distance in (* Avoid rounding errors when using meters [return as sent] *)
    if negb (DistanceUnit_eqb (mapUnits (mSourceCrs d)) DistanceMeters) then
      let distance :=
        distance * fromUnitToUnitFactor DistanceMeters (mapUnits (mSourceCrs d)) in
      let result := QgsPointXY_distance p1 p2 in
      let p2 := QgsPointXY_project p1 distance azimuth in
      (result, p2)
    else
      let p2 := QgsPointXY_project p1 distance azimuth in
      (result, p2).

End Lines.

(* ================================================================= *)
(** ** Antimeridian crossing *)

(** The callers' test that a segment crosses the antimeridian
    ([splitGeometryAtAntimeridian] and [geodesicLine]). *)
Definition crossedAntimeridian (prevLon lon : R) : bool :=
  (Rltb prevLon (-120) && Rgtb lon 120) || (Rgtb prevLon 120 && Rltb lon (-120)).

Section Antimeridian.
Context {collab : Collaborators}.

(** The locals of the search loop. *)
Record CrossState : Type := mkCross {
  c_p1x : R; c_p1y : R; c_p2x : R; c_p2y : R;
  c_lat : R; c_lon : R;
  c_line : geod_geodesicline;
  c_intersectionDist : R;
  c_iterations : Z
}.

(** One execution of the loop body; [a] and [f] are what [geod_init] got. *)
Definition crossStep (a f : R) (s : CrossState) : CrossState :=
  let s1 :=
    if (c_iterations s >? 0)%Z && Rgtb (fabs (c_p2x s - c_p1x s)) 5 then
      (* binary search to narrow the window *)
      let '(p1x, p1y, p2x, p2y) :=
        if Rltb (c_lon s) 180
        then (c_lon s, c_lat s, c_p2x s, c_p2y s)
        else (c_p1x s, c_p1y s, c_lon s, c_lat s) in
      let line := geod_inverseline a f p1y p1x p2y p2x in
      mkCross p1x p1y p2x p2y (c_lat s) (c_lon s) line (s13 line * 0.5)
              (c_iterations s)
    else
      (* Newton's method *)
      mkCross (c_p1x s) (c_p1y s) (c_p2x s) (c_p2y s) (c_lat s) (c_lon s) (c_line s)
              (c_intersectionDist s * ((180.0 - c_p1x s) / (c_lon s - c_p1x s)))
              (c_iterations s) in
  let '(lat, lon) := geod_position (c_line s1) (c_intersectionDist s1) in
  (* we don't want to wrap longitudes > 180 around *)
  let lon := if Rltb lon 0 then lon + 360 else lon in
  mkCross (c_p1x s1) (c_p1y s1) (c_p2x s1) (c_p2y s1) lat lon (c_line s1)
          (c_intersectionDist s1) (c_iterations s1 + 1)%Z.

(** [while ( std::fabs( lon - 180.0 ) > 0.00000001 && iterations < 100 ) body];
    [gas] is 100 at the call. *)
Fixpoint crossLoop (gas : nat) (a f : R) (s : CrossState) : CrossState :=
  match gas with
  | O => s
  | S gas' =>
      if Rgtb (fabs (c_lon s - 180.0)) 0.00000001 && (c_iterations s <? 100)%Z
      then crossLoop gas' a f (crossStep a f s)
      else s
  end.

(** The endpoints after the 360-degree shift and the reordering:
    [(p1.x(), p1x, p1y, p2x, p2y)]. *)
Definition orderEndpoints (pp1 pp2 : QgsPointXY) : R * R * R * R * R :=
  let p1 := if Rltb (px pp1) (-120) then mkPointXY (px pp1 + 360) (py pp1) else pp1 in
  let p2 := if Rltb (px pp2) (-120) then mkPointXY (px pp2 + 360) (py pp2) else pp2 in
  (* we need p2.x() > 180 and p1.x() < 180 *)
  let p1x := if Rltb (px p1) 180 then px p1 else px p2 in
  let p1y := if Rltb (px p1) 180 then py p1 else py p2 in
  let p2x := if Rltb (px p1) 180 then px p2 else px p1 in
  let p2y := if Rltb (px p1) 180 then py p2 else py p1 in
  (px p1, p1x, p1y, p2x, p2y).

(** The ellipsoidal search: the state when the loop is left, and
    [totalDist]. *)
Definition crossSearch (d : QgsDistanceArea) (p1x p1y p2x p2y : R)
  : CrossState * R :=
  let a := mSemiMajor d in
  let f := 1 / mInvFlattening d in
  let line := geod_inverseline a f p1y p1x p2y p2x in
  let totalDist := s13 line in
  (* the first candidate is p2 *)
  (crossLoop 100 a f (mkCross p1x p1y p2x p2y p2y p2x line (s13 line) 0), totalDist).

(** [latitudeGeodesicCrossesAntimeridian]: the returned latitude and the
    value stored in [fractionAlongLine]. *)
Definition latitudeGeodesicCrossesAntimeridian (d : QgsDistanceArea)
    (pp1 pp2 : QgsPointXY) : R * R :=
  let '(p1_x, p1x, p1y, p2x, p2y) := orderEndpoints pp1 pp2 in
  if String.eqb (mEllipsoid d) GEO_NONE then
    let fractionAlongLine := (180 - p1x) / (p2x - p1x) in
    let fractionAlongLine :=
      if Rgeb p1_x 180 then 1 - fractionAlongLine else fractionAlongLine in
    (p1y + (180 - p1x) / (p2x - p1x) * (p2y - p1y), fractionAlongLine)
  else
    let '(s, totalDist) := crossSearch d p1x p1y p2x p2y in
    let fractionAlongLine := c_intersectionDist s / totalDist in
    let fractionAlongLine :=
      if Rgeb p1_x 180 then 1 - fractionAlongLine else fractionAlongLine in
    (* either converged on 180 longitude or hit too many iterations *)
    (c_lat s, fractionAlongLine).

End Antimeridian.

(* ================================================================= *)
(** ** Polygon area *)

(** [computePolygonFlatArea]: the [for] loop over [i = 0 .. size - 1]. *)
Definition computePolygonFlatArea (points : list QgsPointXY) : R :=
  let size := List.length points in
  let pt := fun k => nth k points QgsPointXY_default in
  let area :=
    fold_left
      (fun area i =>
         area + px (pt i) * py (pt ((i + 1) mod size)%nat)
              - px (pt ((i + 1) mod size)%nat) * py (pt i))
      (seq 0 size) 0.0 in
  let area := area / 2.0 in
  fabs area. (* All areas are positive! *)

(** [while ( hi - lo > M_PI ) lo += m_TwoPI;] returning [lo]; [None] when
    the fuel runs out.  On the reals every addition brings [lo] a turn
    closer to [hi]; on the doubles of the source it does so only while
    [lo] is small enough for the sum to differ from it, which is why the
    theorems that a result is reached bound the longitudes
    ([unwrapLimit], [longitudeLimit]). *)
Fixpoint unwrapLoop (fuel : nat) (twoPI hi lo : R) : option R :=
  match fuel with
  | O => None
  | S fuel' =>
      if Rgtb (hi - lo) M_PI then unwrapLoop fuel' twoPI hi (lo + twoPI)
      else Some lo
  end.

(** The unwrap step of one edge: the new [(x1, x2)]. *)
Definition unwrap (fuel : nat) (twoPI x1 x2 : R) : option (R * R) :=
  if Rgtb x1 x2 then
    match unwrapLoop fuel twoPI x1 x2 with
    | Some x2' => Some (x1, x2')
    | None => None
    end
  else if Rgtb x2 x1 then
    match unwrapLoop fuel twoPI x2 x1 with
    | Some x1' => Some (x1', x2)
    | None => None
    end
  else Some (x1, x2).

(** The contribution of one edge once unwrapped. *)
Definition edgeTerm (d : QgsDistanceArea) (x1 y1 Qbar1 x2 y2 Qbar2 : R) : R :=
  let thresh := 1e-6 in
  let dx := x2 - x1 in
  let dy := y2 - y1 in
  if Rgtb (fabs dy) thresh then
    (* account for different latitudes y1, y2 *)
    dx * (m_Qp d - (Qbar2 - Qbar1) / dy)
  else
    (* latitudes y1, y2 are (nearly) identical *)
    dx * (m_Qp d - getQ d ((y1 + y2) / 2.0)).

(** The [for] loop of [computePolygonArea] over the vertices still to
    visit; [x2], [y2], [Qbar2] and [area] are the locals on entry.  The
    unwrapped [x2] is what the next edge starts from. *)
Fixpoint edgeLoop (fuel : nat) (d : QgsDistanceArea) (points : list QgsPointXY)
    (x2 y2 Qbar2 area : R) : option R :=
  match points with
  | [] => Some area
  | p :: points' =>
      let x1 := x2 in
      let y1 := y2 in
      let Qbar1 := Qbar2 in
      let x2 := DEG2RAD (px p) in
      let y2 := DEG2RAD (py p) in
      let Qbar2 := getQbar d y2 in
      match unwrap fuel (m_TwoPI d) x1 x2 with
      | None => None
      | Some (x1, x2) =>
          edgeLoop fuel d points' x2 y2 Qbar2
                   (area + edgeTerm d x1 y1 Qbar1 x2 y2 Qbar2)
      end
  end.

(** The accumulated edge sum of the ellipsoidal branch. *)
Definition edgeSum (fuel : nat) (d : QgsDistanceArea) (points : list QgsPointXY)
  : option R :=
  let n := List.length points in
  let last := nth (n - 1) points QgsPointXY_default in
  let x2 := DEG2RAD (px last) in
  let y2 := DEG2RAD (py last) in
  let Qbar2 := getQbar d y2 in
  edgeLoop fuel d points x2 y2 Qbar2 0.0.

(** [computePolygonArea]; [None] when an unwrap loop runs out of fuel. *)
Definition computePolygonArea (fuel : nat) (d : QgsDistanceArea)
    (points : list QgsPointXY) : option R :=
  match points with
  | [] => Some 0
  | _ :: _ =>
      if negb (willUseEllipsoid d) then Some (computePolygonFlatArea points)
      else
        match edgeSum fuel d points with
        | None => None
        | Some area =>
            let area := area * m_AE d in
            let area := if Rltb area 0.0 then - area else area in
            (* kludge - if polygon circles the south pole the area will be
               computed as if it circled the north pole *)
            let area := if Rgtb area (m_E d) then m_E d else area in
            let area := if Rgtb area (m_E d / 2) then m_E d - area else area in
            Some area
        end
  end.

(* ================================================================= *)
(** ** The longitudes the unwrap loops are stated for

    [x2 += m_TwoPI] and [x1 += m_TwoPI] add to a double: from about 2^56
    radians on the sum is the old value again and the loop has no other
    way out.  That the loops end is therefore stated for longitudes far
    inside that range, where a turn added is a turn gained, as it is on
    the reals. *)

(** Bound on the longitudes of one edge as the loops see them, in
    radians. *)
Definition unwrapLimit : R := 1e10.

(** Bound on the longitude of a vertex, in degrees.  The longitude carried
    from one edge to the next can exceed it by half a turn per edge
    walked, which for the at most 2^31 vertices of a QVector stays below
    [unwrapLimit]. *)
Definition longitudeLimit : R := 1e9.

(** Turns that cover twice [unwrapLimit] radians, and half turns that
    cover [longitudeLimit] degrees. *)
Definition unwrapTurns : nat := Z.to_nat 10000000000.

Definition longitudeHalfTurns : nat := Z.to_nat 5555556.

(* ================================================================= *)
(** ** Configurations *)

(** The object as the constructor leaves it: axes and inverse flattening
    -1, source CRS WGS 84 (geographic, degrees), ellipsoid "NONE".  The
    constructor does not write the area constants; they read 0 here, and
    [Reachable] below allows any value. *)
Definition QgsDistanceArea_new : QgsDistanceArea :=
  mkDistanceArea (mkCrs true DistanceDegrees) GEO_NONE (-1.0) (-1.0) (-1.0)
                 0 0 0 0 0 0 0 0 0 0 0.

Section Configurations.
Context {collab : Collaborators}.

(** The states an object goes through: constructed, then mutated only by
    the configuration setters. *)
Inductive Reachable : QgsDistanceArea -> Prop :=
| reach_new : forall d,
    mEllipsoid d = GEO_NONE ->
    mSemiMajor d = -1.0 -> mSemiMinor d = -1.0 -> mInvFlattening d = -1.0 ->
    Reachable d
| reach_setSourceCrs : forall d crs,
    Reachable d -> Reachable (setSourceCrs d crs)
| reach_setEllipsoid_id : forall d ellipsoid,
    Reachable d -> Reachable (fst (setEllipsoid_id d ellipsoid))
| reach_setEllipsoid_ab : forall d a b,
    Reachable d -> Reachable (fst (setEllipsoid_ab d a b)).

End Configurations.

(* ================================================================= *)
(** ** The specification's formulas *)

(** "if computed area > Eref, clamp to Eref; if area > Eref/2, replace with
    Eref - area", in this order. *)
Definition polarEnclosureCorrection (Eref area : R) : R :=
  let clamped := if Rgtb area Eref then Eref else area in
  if Rgtb clamped (Eref / 2) then Eref - clamped else clamped.

(** "Multiply accumulated sum by AE, take absolute value", then the
    correction. *)
Definition spec_ellipsoidalArea (AE Eref sum : R) : R :=
  polarEnclosureCorrection Eref (Rabs (sum * AE)).

(** Every vertex paired with its successor, the last one with the first
    ("index wrap mod n"). *)
Definition cyclicSuccessors (points : list QgsPointXY) : list QgsPointXY :=
  tl points ++ firstn 1 points.

Definition sumR (l : list R) : R := fold_right Rplus 0 l.

(** "Sigma (x_i * y_{i+1} - x_{i+1} * y_i)" *)
Definition shoelaceSum (points : list QgsPointXY) : R :=
  sumR (map (fun pq => px (fst pq) * py (snd pq) - px (snd pq) * py (fst pq))
            (combine points (cyclicSuccessors points))).

Definition spec_planarArea (points : list QgsPointXY) : R :=
  1 / 2 * Rabs (shoelaceSum points).


(* ================================================================= *)
(** ** An implementation of the collaborators

    Used to run the model at concrete inputs: the identity transform (as
    between equal source and destination CRS), unit factor 1, Euclidean
    point helpers, and straight lines of the (lon, lat) plane in place of
    geodesics.  No theorem below is specific to it. *)

Definition euclideanDistance (p q : QgsPointXY) : R :=
  sqrt ((px p - px q) * (px p - px q) + (py p - py q) * (py p - py q)).

Definition planarProject (p : QgsPointXY) (distance bearing : R) : QgsPointXY :=
  let rads := bearing * M_PI / 180.0 in
  mkPointXY (px p + distance * sin rads) (py p + distance * cos rads).

Definition nearWithin (epsilon a b : R) : bool :=
  let diff := a - b in
  Rgtb diff (- epsilon) && Rleb diff epsilon.

(** (lat1, lon1, lat2, lon2) *)
Definition planeLine : Type := (R * R * R * R)%type.

Definition planeLine_s13 (l : planeLine) : R :=
  let '(lat1, lon1, lat2, lon2) := l in
  sqrt ((lat2 - lat1) * (lat2 - lat1) + (lon2 - lon1) * (lon2 - lon1)).

Definition planeLine_position (l : planeLine) (s : R) : R * R :=
  let '(lat1, lon1, lat2, lon2) := l in
  let t := s / planeLine_s13 l in
  (lat1 + t * (lat2 - lat1), lon1 + t * (lon2 - lon1)).

Definition planeCollaborators : Collaborators :=
  {| qgsDoubleNear := nearWithin 1e-15;
     qgsDoubleToString := fun _ => "?"%string;
     ellipsoidParameters := fun _ => mkEllipsoidParameters false false 0 0 0;
     transform := fun p => Some p;
     fromUnitToUnitFactor := fun _ _ => 1;
     QgsPointXY_distance := euclideanDistance;
     QgsPointXY_project := planarProject;
     geod_geodesicline := planeLine;
     geod_inverseline := fun _ _ lat1 lon1 lat2 lon2 => (lat1, lon1, lat2, lon2);
     s13 := planeLine_s13;
     geod_position := planeLine_position |}.

(** WGS 84 set by its radii on a fresh object. *)
Definition wgs84 : QgsDistanceArea :=
  fst (setEllipsoid_ab (collab := planeCollaborators)
         QgsDistanceArea_new 6378137.0 6356752.314245).

(* ================================================================= *)
(** ** Bearing, polygon measurement, units, densified geodesic *)

(** Stand-in for [QgsUnitTypes::AreaUnit]; the file itself names only
    [AreaSquareMeters]. *)
Inductive AreaUnit : Type :=
| AreaSquareMeters
| AreaSquareKilometers
| AreaSquareFeet
| AreaSquareDegrees
| AreaUnknownUnit.

(** More of the code this file calls and does not define. *)
Class UnitCollaborators : Type := {
  (** QgsCoordinateTransform::transform with ReverseTransform; [None] is a
      thrown QgsCsException *)
  transformReverse : QgsPointXY -> option QgsPointXY;
  (** QgsUnitTypes::distanceToAreaUnit and the areal fromUnitToUnitFactor *)
  distanceToAreaUnit : DistanceUnit -> AreaUnit;
  fromAreaUnitToUnitFactor : AreaUnit -> AreaUnit -> R
}.

Definition lengthUnits (d : QgsDistanceArea) : DistanceUnit :=
  if willUseEllipsoid d then DistanceMeters else mapUnits (mSourceCrs d).

Section Measurements.
Context {collab : Collaborators} {units : UnitCollaborators}.

Definition areaUnits (d : QgsDistanceArea) : AreaUnit :=
  if willUseEllipsoid d then AreaSquareMeters
  else distanceToAreaUnit (mapUnits (mSourceCrs d)).

Definition convertLengthMeasurement (d : QgsDistanceArea) (length : R)
    (toUnits : DistanceUnit) : R :=
  (* get the conversion factor between the specified units *)
  let measureUnits := lengthUnits d in
  let factorUnits := fromUnitToUnitFactor measureUnits toUnits in
  length * factorUnits.

Definition convertAreaMeasurement (d : QgsDistanceArea) (area : R)
    (toUnits : AreaUnit) : R :=
  let measureUnits := areaUnits d in
  let factorUnits := fromAreaUnitToUnitFactor measureUnits toUnits in
  area * factorUnits.

(** [bearing]: the inner [None] is the local [double bearing] returned as
    declared, uninitialised, when [computeDistanceBearing] came back before
    storing through [course1].  The function has no [try]: an exception of
    the transform propagates. *)
Definition bearing (d : QgsDistanceArea) (p1 p2 : QgsPointXY) : Eff (option R) :=
  if willUseEllipsoid d then
    (pp1 <- callTransform p1 ;;
     pp2 <- callTransform p2 ;;
     ret (option_map fst (snd (computeDistanceBearing d pp1 pp2))))%eff
  else (* compute simple planar azimuth *)
    let dx := px p2 - px p1 in
    let dy := py p2 - py p1 in
    ret (Some (atan2 dx dy)).

(** The loop [pts.append( mCoordTransform.transform( *i ) )] of
    [measurePolygon]. *)
Fixpoint transformAll (points : list QgsPointXY) : Eff (list QgsPointXY) :=
  match points with
  | [] => ret []
  | i :: points' =>
      (q <- callTransform i ;;
       pts <- transformAll points' ;;
       ret (q :: pts))%eff
  end.

(** [measurePolygon( const QVector<QgsPointXY> &points )]; the inner [None]
    is [computePolygonArea] out of fuel. *)
Definition measurePolygon_points (fuel : nat) (d : QgsDistanceArea)
    (points : list QgsPointXY) : Eff (option R) :=
  tryCatch
    (if willUseEllipsoid d then
       (pts <- transformAll points ;;
        ret (computePolygonArea fuel d pts))%eff
     else
       ret (computePolygonArea fuel d points))
    (Some 0.0).

(** [currentPart << p] for the point a reverse transform gives, nothing
    when it throws (the exception is caught and logged on the spot).  On
    the reals every coordinate is finite, so the [std::isfinite] tests of
    the source always pass. *)
Definition appendReverse (currentPart : list QgsPointXY) (geo : QgsPointXY)
  : list QgsPointXY :=
  match transformReverse geo with
  | Some p => currentPart ++ [p]
  | None => currentPart
  end.

(** The [while ( true )] loop of [geodesicLine]; [None] when the fuel runs
    out. *)
Fixpoint geodesicLoop (fuel : nat) (d : QgsDistanceArea) (line : geod_geodesicline)
    (totalDist : R) (pp2 : QgsPointXY) (interval : R) (breakLine : bool)
    (res : list (list QgsPointXY)) (currentPart : list QgsPointXY)
    (dist prevLon prevLat : R) (lastRun : bool) : option (list (list QgsPointXY)) :=
  match fuel with
  | O => None
  | S fuel' =>
      let '(lat, lon) :=
        if lastRun then
          (py pp2, if Rgtb (px pp2) 180 then px pp2 - 360 else px pp2)
        else geod_position line dist in
      let '(res, currentPart) :=
        if breakLine && crossedAntimeridian prevLon lon then
          let lat180 :=
            fst (latitudeGeodesicCrossesAntimeridian d (mkPointXY prevLon prevLat)
                   (mkPointXY lon lat)) in
          let currentPart :=
            appendReverse currentPart
              (if Rltb prevLon (-120) then mkPointXY (-180) lat180
               else mkPointXY 180 lat180) in
          let res := res ++ [currentPart] in
          let currentPart :=
            appendReverse []
              (if Rltb lon (-120) then mkPointXY (-180) lat180
               else mkPointXY 180 lat180) in
          (res, currentPart)
        else (res, currentPart) in
      let prevLon := lon in
      let prevLat := lat in
      let currentPart := appendReverse currentPart (mkPointXY lon lat) in
      if lastRun then Some (res ++ [currentPart])
      else
        let dist := dist + interval in
        geodesicLoop fuel' d line totalDist pp2 interval breakLine res currentPart
                     dist prevLon prevLat (if Rgeb dist totalDist then true else lastRun)
  end.

(** [geodesicLine] *)
Definition geodesicLine (fuel : nat) (d : QgsDistanceArea) (p1 p2 : QgsPointXY)
    (interval : R) (breakLine : bool) : option (list (list QgsPointXY)) :=
  if negb (willUseEllipsoid d) then Some [[p1; p2]]
  else
    match transform p1, transform p2 with
    | Some pp1, Some pp2 =>
        let line :=
          geod_inverseline (mSemiMajor d) (1 / mInvFlattening d)
                           (py pp1) (px pp1) (py pp2) (px pp2) in
        let totalDist := s13 line in
        geodesicLoop fuel d line totalDist pp2 interval breakLine [] [p1]
                     interval (px pp1) (py pp1) false
    | _, _ => Some []
    end.

End Measurements.

(** The term of the shoelace sum for an edge from [p] to [q], and the sum
    of a function over the consecutive pairs of a list, the closing pair
    left out. *)
Definition crossTerm (p q : QgsPointXY) : R := px p * py q - px q * py p.

Fixpoint chainSum (F : QgsPointXY -> QgsPointXY -> R) (points : list QgsPointXY) : R :=
  match points with
  | p :: rest =>
      match rest with
      | q :: _ => F p q + chainSum F rest
      | [] => 0
      end
  | [] => 0
  end.

Section GeodesicLineShape.
Context {collab : Collaborators} {units : UnitCollaborators}.


End GeodesicLineShape.

(** The identity as reverse transform, squared factors of 1. *)
Definition planeUnitCollaborators : UnitCollaborators :=
  {| transformReverse := fun p => Some p;
     distanceToAreaUnit := fun u =>
       match u with
       | DistanceMeters => AreaSquareMeters
       | DistanceKilometers => AreaSquareKilometers
       | DistanceFeet => AreaSquareFeet
       | DistanceDegrees => AreaSquareDegrees
       | DistanceUnknownUnit => AreaUnknownUnit
       end;
     fromAreaUnitToUnitFactor := fun _ _ => 1 |}.

(** As [planeCollaborators], with a transform that throws on latitudes
    beyond the poles. *)
Definition boundedTransform (p : QgsPointXY) : option QgsPointXY :=
  if Rgtb (Rabs (py p)) 90 then None else Some p.

Definition boundedCollaborators : Collaborators :=
  {| qgsDoubleNear := nearWithin 1e-15;
     qgsDoubleToString := fun _ => "?"%string;
     ellipsoidParameters := fun _ => mkEllipsoidParameters false false 0 0 0;
     transform := boundedTransform;
     fromUnitToUnitFactor := fun _ _ => 1;
     QgsPointXY_distance := euclideanDistance;
     QgsPointXY_project := planarProject;
     geod_geodesicline := planeLine;
     geod_inverseline := fun _ _ lat1 lon1 lat2 lon2 => (lat1, lon1, lat2, lon2);
     s13 := planeLine_s13;
     geod_position := planeLine_position |}.

(* ================================================================= *)
(** * Properties *)

(** ** Comparisons *)

Lemma Rltb_true (a b : R) : Rltb a b = true <-> a < b.
Proof. unfold Rltb; destruct (Rlt_dec a b); split; intros; auto; discriminate. Qed.

Lemma Rltb_false (a b : R) : Rltb a b = false <-> b <= a.
Proof.
  unfold Rltb; destruct (Rlt_dec a b); split; intros; auto; try discriminate; lra.
Qed.

Lemma Rgtb_true (a b : R) : Rgtb a b = true <-> a > b.
Proof. unfold Rgtb; rewrite Rltb_true; lra. Qed.

Lemma Rgtb_false (a b : R) : Rgtb a b = false <-> a <= b.
Proof. unfold Rgtb; rewrite Rltb_false; lra. Qed.

Lemma Rleb_true (a b : R) : Rleb a b = true <-> a <= b.
Proof. unfold Rleb; destruct (Rle_dec a b); split; intros; auto; discriminate. Qed.

Lemma Rleb_false (a b : R) : Rleb a b = false <-> b < a.
Proof.
  unfold Rleb; destruct (Rle_dec a b); split; intros; auto; try discriminate; lra.
Qed.

Lemma Rgeb_true (a b : R) : Rgeb a b = true <-> a >= b.
Proof. unfold Rgeb; rewrite Rleb_true; lra. Qed.

Lemma Rgeb_false (a b : R) : Rgeb a b = false <-> a < b.
Proof. unfold Rgeb; rewrite Rleb_false; lra. Qed.

(** Destructs the first boolean comparison found in the goal and records
    its meaning as an inequality. *)
Ltac cmp_case :=
  match goal with
  | |- context [Rltb ?a ?b] =>
      let H := fresh "Hcmp" in
      destruct (Rltb a b) eqn:H;
      [ apply Rltb_true in H | apply Rltb_false in H ]
  | |- context [Rgtb ?a ?b] =>
      let H := fresh "Hcmp" in
      destruct (Rgtb a b) eqn:H;
      [ apply Rgtb_true in H | apply Rgtb_false in H ]
  | |- context [Rleb ?a ?b] =>
      let H := fresh "Hcmp" in
      destruct (Rleb a b) eqn:H;
      [ apply Rleb_true in H | apply Rleb_false in H ]
  | |- context [Rgeb ?a ?b] =>
      let H := fresh "Hcmp" in
      destruct (Rgeb a b) eqn:H;
      [ apply Rgeb_true in H | apply Rgeb_false in H ]
  end.

Lemma M_PI_pos : 0 < M_PI.
Proof. exact PI_RGT_0. Qed.

Lemma fabs_le_iff (v e : R) : fabs v <= e <-> - e <= v <= e.
Proof.
  unfold fabs, Rabs; destruct (Rcase_abs v); split; intros H; lra.
Qed.

Lemma Rabs_le_iff (v e : R) : Rabs v <= e <-> - e <= v <= e.
Proof. exact (fabs_le_iff v e). Qed.

Lemma fabs_gt_iff (v e : R) : fabs v > e <-> v < - e \/ e < v.
Proof.
  unfold fabs, Rabs; destruct (Rcase_abs v); split; intros H; lra.
Qed.

(* ================================================================= *)
(** ** Ellipsoid state *)

Lemma computeAreaInit_ellipsoid (d : QgsDistanceArea) :
  mEllipsoid (computeAreaInit d) = mEllipsoid d.
Proof.
  unfold computeAreaInit.
  destruct (String.eqb (mEllipsoid d) GEO_NONE); reflexivity.
Qed.

Lemma computeAreaInit_axes (d : QgsDistanceArea) :
  mSemiMajor (computeAreaInit d) = mSemiMajor d /\
  mSemiMinor (computeAreaInit d) = mSemiMinor d /\
  mInvFlattening (computeAreaInit d) = mInvFlattening d.
Proof.
  unfold computeAreaInit.
  destruct (String.eqb (mEllipsoid d) GEO_NONE); repeat split; reflexivity.
Qed.

(** Whenever [computeAreaInit] leaves an object in ellipsoidal mode, it has
    just written [m_TwoPI] and a non-negative [m_E]. *)
Lemma computeAreaInit_constants (d : QgsDistanceArea) :
  willUseEllipsoid (computeAreaInit d) = true ->
  m_TwoPI (computeAreaInit d) = M_PI + M_PI /\ 0 <= m_E (computeAreaInit d).
Proof.
  unfold willUseEllipsoid.
  rewrite computeAreaInit_ellipsoid.
  unfold computeAreaInit.
  destruct (String.eqb (mEllipsoid d) GEO_NONE) eqn:Hnone; [discriminate|].
  intros _; split; [reflexivity|].
  cbn [m_E with_E].
  cmp_case; lra.
Qed.

Section EllipsoidFacts.
Context {collab : Collaborators}.

Lemma setEllipsoid_ab_state (d : QgsDistanceArea) (a b : R) :
  fst (setEllipsoid_ab d a b)
  = computeAreaInit
      (with_axes
         (with_ellipsoid d
            ("PARAMETER:" ++ qgsDoubleToString a ++ ":" ++ qgsDoubleToString b)%string)
         a b (a / (a - b))).
Proof. reflexivity. Qed.

Lemma setEllipsoid_ab_willUse (d : QgsDistanceArea) (a b : R) :
  willUseEllipsoid (fst (setEllipsoid_ab d a b)) = true.
Proof.
  rewrite setEllipsoid_ab_state.
  unfold willUseEllipsoid.
  rewrite computeAreaInit_ellipsoid.
  reflexivity.
Qed.

(** In ellipsoidal mode a reachable object carries [m_TwoPI = 2 pi] and a
    non-negative reference area [m_E]. *)
Lemma Reachable_constants (d : QgsDistanceArea) :
  Reachable d -> willUseEllipsoid d = true ->
  m_TwoPI d = M_PI + M_PI /\ 0 <= m_E d.
Proof.
  induction 1 as [d Hn _ _ _ | d crs _ IH | d id _ IH | d a b _ _]; intros Huse.
  - unfold willUseEllipsoid in Huse. rewrite Hn in Huse. discriminate.
  - apply IH. exact Huse.
  - revert Huse. unfold setEllipsoid_id.
    destruct (String.eqb id GEO_NONE) eqn:Hid.
    + cbn. discriminate.
    + destruct (valid (ellipsoidParameters id)); cbn [negb fst].
      * unfold setFromParams.
        destruct (useCustomParameters (ellipsoidParameters id)).
        -- rewrite setEllipsoid_ab_state. apply computeAreaInit_constants.
        -- apply computeAreaInit_constants.
      * exact IH.
  - rewrite setEllipsoid_ab_state in *. apply computeAreaInit_constants. exact Huse.
Qed.

End EllipsoidFacts.

Lemma wgs84_reachable : Reachable (collab := planeCollaborators) wgs84.
Proof. unfold wgs84. apply reach_setEllipsoid_ab, reach_new; reflexivity. Qed.

Lemma wgs84_willUse : willUseEllipsoid wgs84 = true.
Proof. apply (setEllipsoid_ab_willUse (collab := planeCollaborators)). Qed.

Lemma wgs84_semiMajor : mSemiMajor wgs84 <> 0.
Proof.
  unfold wgs84.
  rewrite (setEllipsoid_ab_state (collab := planeCollaborators)).
  match goal with
  | |- mSemiMajor (computeAreaInit ?d0) <> 0 =>
      destruct (computeAreaInit_axes d0) as [Ha _]; rewrite Ha
  end.
  cbn [with_axes mSemiMajor]. lra.
Qed.


(** The vertices of the triangle the theorems below are run on. *)
Lemma triangle_within_limit :
  forall p, In p [mkPointXY 0 0; mkPointXY 1 0; mkPointXY 0 1] ->
            Rabs (px p) <= longitudeLimit.
Proof.
  intros p Hp. apply Rabs_le_iff. unfold longitudeLimit.
  destruct Hp as [<- | [<- | [<- | []]]]; cbn [px]; lra.
Qed.

(** C1, as the code has it: [setEllipsoid( semiMajor, semiMinor )] returns
    true for every pair of parameters, non-positive ones included; it stores
    them unchecked and leaves the object in ellipsoidal mode. *)
Theorem setEllipsoid_ab_always_true :
  forall (collab : Collaborators) (d : QgsDistanceArea) (a b : R),
    snd (setEllipsoid_ab d a b) = true /\
    mSemiMajor (fst (setEllipsoid_ab d a b)) = a /\
    mSemiMinor (fst (setEllipsoid_ab d a b)) = b /\
    willUseEllipsoid (fst (setEllipsoid_ab d a b)) = true.
Proof.
  intros collab d a b.
  split; [reflexivity|].
  pose proof (computeAreaInit_axes
                (with_axes
                   (with_ellipsoid d
                      ("PARAMETER:" ++ qgsDoubleToString a ++ ":"
                                    ++ qgsDoubleToString b)%string)
                   a b (a / (a - b)))) as (Ha & Hb & _).
  rewrite setEllipsoid_ab_state.
  split; [exact Ha | split; [exact Hb |]].
  rewrite <- setEllipsoid_ab_state. apply setEllipsoid_ab_willUse.
Qed.

(** C1, as stated, fails: on a fresh object the setter called with the
    non-positive radii (-1, -1) returns true, not false. *)
Lemma setEllipsoid_ab_negative_radii_accepted :
  -1 <= 0 /\
  snd (setEllipsoid_ab (collab := planeCollaborators) QgsDistanceArea_new (-1) (-1))
  = true.
Proof. split; [lra | reflexivity]. Qed.

(* ================================================================= *)
(** ** Vincenty inverse: the lambda iteration *)

Lemma lambdaLoop_unfold (gas : nat) (body : VincentyState -> VincentyState)
    (iterLimit : Z) (s : VincentyState) (n : nat) :
  lambdaLoop (S gas) body iterLimit s n
  = if notConverged s then
      if (iterLimit - 1 >? 0)%Z
      then lambdaLoop gas body (iterLimit - 1)%Z (body s) (S n)
      else ((iterLimit - 1)%Z, s, n)
    else (iterLimit, s, n).
Proof. reflexivity. Qed.

Lemma notConverged_true (s : VincentyState) :
  notConverged s = true <-> fabs (v_lambda s - v_lambdaP s) > 1e-12.
Proof. unfold notConverged. apply Rgtb_true. Qed.

Lemma notConverged_false (s : VincentyState) :
  notConverged s = false <-> fabs (v_lambda s - v_lambdaP s) <= 1e-12.
Proof. unfold notConverged. apply Rgtb_false. Qed.

(** Started with the counter at [g + 1], the loop runs the body [m <= g]
    times, on iterates that all fail the convergence test, and is left
    either at the first iterate that passes it or, after [g] runs, with the
    counter at 0. *)
Lemma lambdaLoop_run (body : VincentyState -> VincentyState) :
  forall (g : nat) (s : VincentyState) (n : nat),
  exists (m : nat) (iterLimit : Z),
    lambdaLoop (S g) body (Z.of_nat (S g)) s n
    = (iterLimit, lambdaIterate body s m, (n + m)%nat) /\
    (m <= g)%nat /\
    (forall k, (k < m)%nat -> notConverged (lambdaIterate body s k) = true) /\
    ((notConverged (lambdaIterate body s m) = false /\
      iterLimit = (Z.of_nat (S g) - Z.of_nat m)%Z)
     \/
     (notConverged (lambdaIterate body s m) = true /\ m = g /\ iterLimit = 0%Z)).
Proof.
  induction g as [|g IH]; intros s n; rewrite lambdaLoop_unfold.
  - destruct (notConverged s) eqn:Hs.
    + exists 0%nat, 0%Z. cbn. rewrite Nat.add_0_r.
      repeat split; try lia. right. auto.
    + exists 0%nat, 1%Z. cbn. rewrite Nat.add_0_r.
      repeat split; try lia. left. auto.
  - destruct (notConverged s) eqn:Hs.
    + replace (Z.of_nat (S (S g)) - 1)%Z with (Z.of_nat (S g)) by lia.
      assert (Hpos : (Z.of_nat (S g) >? 0)%Z = true) by (apply Z.gtb_lt; lia).
      rewrite Hpos.
      destruct (IH (body s) (S n)) as (m & il & Hrun & Hm & Hbefore & Hexit).
      exists (S m), il.
      unfold lambdaIterate in *.
      rewrite Nat.iter_succ_r.
      split; [rewrite Hrun; f_equal; lia|].
      split; [lia|].
      split.
      * intros [|k] Hk; [exact Hs|].
        rewrite Nat.iter_succ_r. apply Hbefore. lia.
      * destruct Hexit as [(Hc & Hil) | (Hc & Hmg & Hil)].
        -- left. split; [exact Hc | lia].
        -- right. repeat split; [exact Hc | lia | exact Hil].
    + exists 0%nat, (Z.of_nat (S (S g))). cbn [lambdaIterate Nat.iter nat_rect].
      rewrite Nat.add_0_r.
      repeat split; try lia. left. split; [exact Hs | lia].
Qed.

(** The recursion bound of [lambdaLoop] is never what stops it: from a
    counter of [g + 1], any larger bound gives the same run. *)
Lemma lambdaLoop_gas (body : VincentyState -> VincentyState) :
  forall (g extra : nat) (s : VincentyState) (n : nat),
    lambdaLoop (S g + extra) body (Z.of_nat (S g)) s n
    = lambdaLoop (S g) body (Z.of_nat (S g)) s n.
Proof.
  induction g as [|g IH]; intros extra s n.
  - cbn [Nat.add]. rewrite !lambdaLoop_unfold.
    destruct (notConverged s); reflexivity.
  - change (S (S g) + extra)%nat with (S (S g + extra)).
    rewrite !lambdaLoop_unfold.
    destruct (notConverged s); [|reflexivity].
    replace (Z.of_nat (S (S g)) - 1)%Z with (Z.of_nat (S g)) by lia.
    destruct (Z.of_nat (S g) >? 0)%Z; [apply IH | reflexivity].
Qed.

(** C2: for every pair of points, the lambda iteration of
    [computeDistanceBearing] runs its body [n <= 20] times (in fact at most
    19: the counter starts at 20 and is pre-decremented); every iterate
    before the [n]-th fails the test [|lambda - lambdaP| <= 1e-12], so the
    loop stops at the first iterate that meets it; and when instead the
    counter reaches 0 with the test still failing, the function returns the
    sentinel -1 (and stores no bearing), unless it had already returned 0
    for coincident points. *)
Theorem computeDistanceBearing_iteration_limit :
  forall (collab : Collaborators) (d : QgsDistanceArea) (p1 p2 : QgsPointXY),
    let body := vincentyBody (vincentySetup d p1 p2) in
    let s0 := vincentyInit (vs_L (vincentySetup d p1 p2)) in
    let gap := fun k =>
      fabs (v_lambda (lambdaIterate body s0 k) - v_lambdaP (lambdaIterate body s0 k)) in
    exists (n : nat) (iterLimit : Z),
      vincentyIterate d p1 p2 = (iterLimit, lambdaIterate body s0 n, n) /\
      (n <= 20)%nat /\
      (forall k, (k < n)%nat -> gap k > 1e-12) /\
      ((gap n <= 1e-12 /\ (iterLimit > 0)%Z /\
        (qgsDoubleNear (px p1) (px p2) && qgsDoubleNear (py p1) (py p2) = false ->
         exists courses, snd (computeDistanceBearing d p1 p2) = Some courses))
       \/
       (gap n > 1e-12 /\ n = 19%nat /\ iterLimit = 0%Z /\
        (qgsDoubleNear (px p1) (px p2) && qgsDoubleNear (py p1) (py p2) = false ->
         computeDistanceBearing d p1 p2 = (-1, None)))).
Proof.
  intros collab d p1 p2 body s0 gap.
  destruct (lambdaLoop_run body 19 s0 0) as (n & il & Hrun & Hn & Hbefore & Hexit).
  change (Z.of_nat 20) with 20%Z in *.
  assert (Hiter : vincentyIterate d p1 p2 = (il, lambdaIterate body s0 n, n)).
  { unfold vincentyIterate. exact Hrun. }
  exists n, il.
  split; [exact Hiter|].
  split; [lia|].
  split.
  { intros k Hk. apply notConverged_true. apply Hbefore. exact Hk. }
  destruct Hexit as [(Hc & Hil) | (Hc & Hn19 & Hil)].
  - left. split; [apply notConverged_false; exact Hc|].
    split; [lia|].
    intros Hfar. unfold computeDistanceBearing.
    rewrite Hfar, Hiter.
    destruct (il =? 0)%Z eqn:Hz; [apply Z.eqb_eq in Hz; lia|].
    eexists. reflexivity.
  - right. split; [apply notConverged_true; exact Hc|].
    split; [exact Hn19|]. split; [exact Hil|].
    intros Hfar. unfold computeDistanceBearing.
    rewrite Hfar, Hiter, Hil. reflexivity.
Qed.

(* ================================================================= *)
(** ** Vincenty direct: the domain guard *)

(** C3: outside [|lon| <= 180], [|lat| <= 85.05115] the direct projection
    computes nothing and returns the point (0, 0); the function has no
    error channel, the point is all the caller gets. *)
Theorem computeSpheroidProject_domain_guard :
  forall (d : QgsDistanceArea) (p1 : QgsPointXY) (distance azimuth : R),
    Rabs (px p1) > 180 \/ Rabs (py p1) > 85.05115 ->
    computeSpheroidProject d p1 distance azimuth = mkPointXY 0 0.
Proof.
  intros d p1 distance azimuth Hout.
  assert (Hguard :
            Rltb (px p1) (-180.0) || Rgtb (px p1) 180.0
            || Rltb (py p1) (-85.05115) || Rgtb (py p1) 85.05115 = true).
  { destruct Hout as [Hx | Hy].
    - apply (fabs_gt_iff (px p1) 180) in Hx. destruct Hx as [Hx | Hx].
      + assert (Hb : Rltb (px p1) (-180.0) = true) by (apply Rltb_true; lra).
        rewrite Hb. reflexivity.
      + assert (Hb : Rgtb (px p1) 180.0 = true) by (apply Rgtb_true; lra).
        rewrite Hb. rewrite orb_true_r. reflexivity.
    - apply (fabs_gt_iff (py p1) 85.05115) in Hy. destruct Hy as [Hy | Hy].
      + assert (Hb : Rltb (py p1) (-85.05115) = true) by (apply Rltb_true; lra).
        rewrite Hb. rewrite orb_true_r. reflexivity.
      + assert (Hb : Rgtb (py p1) 85.05115 = true) by (apply Rgtb_true; lra).
        rewrite Hb. rewrite orb_true_r. reflexivity. }
  unfold computeSpheroidProject.
  cbv zeta.
  rewrite Hguard, orb_true_r.
  reflexivity.
Qed.

Lemma computeSpheroidProject_domain_guard_witness :
  (Rabs 200 > 180 \/ Rabs 0 > 85.05115) /\
  computeSpheroidProject wgs84 (mkPointXY 200 0) 1000 0 = mkPointXY 0 0.
Proof.
  assert (H : Rabs 200 > 180 \/ Rabs 0 > 85.05115).
  { left. rewrite Rabs_right; lra. }
  split; [exact H|].
  exact (computeSpheroidProject_domain_guard wgs84 (mkPointXY 200 0) 1000 0 H).
Defined.

(* ================================================================= *)
(** ** Measuring lines *)

Lemma DistanceUnit_eqb_eq (u v : DistanceUnit) :
  DistanceUnit_eqb u v = true <-> u = v.
Proof. destruct u, v; cbn; split; intros H; try reflexivity; discriminate. Qed.

(** C9: in the Cartesian branch (source CRS not geographic, or no
    ellipsoid), when the map units are not meters, the returned value is
    [p1.distance( p2 )] taken while [p2] is still the default-constructed
    point (0, 0); the projected point is assigned afterwards and only
    reaches the caller through [projectedPoint]. *)
Theorem measureLineProjected_cartesian_stale_point :
  forall (collab : Collaborators) (d : QgsDistanceArea) (p1 : QgsPointXY)
         (distance azimuth : R),
    isGeographic (mSourceCrs d) && willUseEllipsoid d = false ->
    mapUnits (mSourceCrs d) <> DistanceMeters ->
    fst (measureLineProjected d p1 distance azimuth)
    = QgsPointXY_distance p1 (mkPointXY 0 0) /\
    snd (measureLineProjected d p1 distance azimuth)
    = QgsPointXY_project p1
        (distance * fromUnitToUnitFactor DistanceMeters (mapUnits (mSourceCrs d)))
        azimuth.
Proof.
  intros collab d p1 distance azimuth Hcart Hunits.
  unfold measureLineProjected.
  rewrite Hcart.
  destruct (DistanceUnit_eqb (mapUnits (mSourceCrs d)) DistanceMeters) eqn:Heq.
  - apply DistanceUnit_eqb_eq in Heq. contradiction.
  - cbn. split; reflexivity.
Qed.

Lemma measureLineProjected_cartesian_stale_point_witness :
  fst (measureLineProjected (collab := planeCollaborators)
         QgsDistanceArea_new (mkPointXY 3 4) 10 0)
  = euclideanDistance (mkPointXY 3 4) (mkPointXY 0 0) /\
  snd (measureLineProjected (collab := planeCollaborators)
         QgsDistanceArea_new (mkPointXY 3 4) 10 0)
  = planarProject (mkPointXY 3 4) (10 * 1) 0.
Proof.
  apply (measureLineProjected_cartesian_stale_point planeCollaborators
           QgsDistanceArea_new (mkPointXY 3 4) 10 0).
  - reflexivity.
  - cbn. discriminate.
Defined.

(** With Euclidean point helpers: from (3, 4), 10 units at azimuth 0 on a
    CRS in degrees, the function returns 5, the distance to the origin,
    while the point it projects lies 10 away. *)
Lemma measureLineProjected_origin_not_projection :
  let r := measureLineProjected (collab := planeCollaborators)
             QgsDistanceArea_new (mkPointXY 3 4) 10 0 in
  fst r = 5 /\ euclideanDistance (mkPointXY 3 4) (snd r) = 10.
Proof.
  cbn -[sqrt sin cos]. unfold euclideanDistance, planarProject, QgsPointXY_default.
  cbn [px py].
  replace (0 * M_PI / 180.0) with 0 by lra.
  rewrite sin_0, cos_0.
  split.
  - replace ((3 - 0) * (3 - 0) + (4 - 0) * (4 - 0)) with (5 * 5) by lra.
    apply sqrt_square. lra.
  - replace ((3 - (3 + 10 * 1 * 0)) * (3 - (3 + 10 * 1 * 0))
             + (4 - (4 + 10 * 1 * 1)) * (4 - (4 + 10 * 1 * 1)))
      with (10 * 10) by lra.
    apply sqrt_square. lra.
Qed.

(** C10: a point vector with fewer than two points measures 0, with or
    without an ellipsoid, and no point is handed to the coordinate
    transform. *)
Theorem measureLine_points_fewer_than_two :
  forall (collab : Collaborators) (d : QgsDistanceArea) (points : list QgsPointXY),
    (List.length points < 2)%nat ->
    returned (measureLine_points d points) = Some 0 /\
    transformCalls (measureLine_points d points) = [].
Proof.
  intros collab d points Hshort.
  unfold measureLine_points.
  apply Nat.ltb_lt in Hshort. rewrite Hshort.
  split; reflexivity.
Qed.

Lemma measureLine_points_fewer_than_two_witness :
  returned (measureLine_points (collab := planeCollaborators) wgs84 [mkPointXY 1 2])
  = Some 0 /\
  transformCalls (measureLine_points (collab := planeCollaborators) wgs84 [mkPointXY 1 2])
  = [].
Proof.
  apply (measureLine_points_fewer_than_two planeCollaborators wgs84 [mkPointXY 1 2]).
  cbn. lia.
Defined.

(* ================================================================= *)
(** ** Polygon area: the longitude unwrap *)

(** [n] additions of [twoPI] are enough once they bring [lo] within pi
    of [hi]. *)
Lemma unwrapLoop_enough (twoPI hi : R) :
  forall (n : nat) (lo : R),
    hi - lo <= M_PI + INR n * twoPI ->
    exists r, unwrapLoop (S n) twoPI hi lo = Some r.
Proof.
  induction n as [|n IH]; intros lo Hbound; cbn [unwrapLoop].
  - cbn [INR] in Hbound.
    destruct (Rgtb (hi - lo) M_PI) eqn:Hgt.
    + apply Rgtb_true in Hgt. lra.
    + eexists; reflexivity.
  - destruct (Rgtb (hi - lo) M_PI) eqn:Hgt.
    + apply IH. rewrite S_INR in Hbound. lra.
    + eexists; reflexivity.
Qed.

Lemma INR_to_nat (z : Z) : (0 <= z)%Z -> INR (Z.to_nat z) = IZR z.
Proof.
  intros Hz. rewrite INR_IZR_INZ, Z2Nat.id by exact Hz. reflexivity.
Qed.

Lemma INR_unwrapTurns : INR unwrapTurns = 10000000000.
Proof. unfold unwrapTurns. apply INR_to_nat. lia. Qed.

Lemma INR_longitudeHalfTurns : INR longitudeHalfTurns = 5555556.
Proof. unfold longitudeHalfTurns. apply INR_to_nat. lia. Qed.

(** The loop adds a whole number of turns, and what it returns is within
    pi of [hi] from below, strictly within from above. *)
Lemma unwrapLoop_result (twoPI hi : R) :
  forall (fuel : nat) (lo r : R),
    twoPI = M_PI + M_PI ->
    - M_PI < hi - lo ->
    unwrapLoop fuel twoPI hi lo = Some r ->
    (exists k : nat, r = lo + INR k * twoPI) /\ - M_PI < hi - r <= M_PI.
Proof.
  induction fuel as [|fuel IH]; intros lo r Htwo Hlow Hrun; [discriminate|].
  cbn [unwrapLoop] in Hrun.
  destruct (Rgtb (hi - lo) M_PI) eqn:Hgt.
  - apply Rgtb_true in Hgt.
    destruct (IH (lo + twoPI) r Htwo) as ((k & Hk) & Hrange); [lra | exact Hrun |].
    split; [|exact Hrange].
    exists (S k). rewrite S_INR. lra.
  - apply Rgtb_false in Hgt. injection Hrun as <-.
    split; [|lra].
    exists 0%nat. cbn [INR]. lra.
Qed.

(** Two longitudes within [n] turns and a half of each other are
    unwrapped by at most [n] additions. *)
Lemma unwrap_enough (twoPI x1 x2 : R) (n : nat) :
  Rabs (x1 - x2) <= M_PI + INR n * twoPI ->
  exists r, unwrap (S n) twoPI x1 x2 = Some r.
Proof.
  intros Hgap. apply Rabs_le_iff in Hgap. unfold unwrap.
  destruct (Rgtb x1 x2).
  - destruct (unwrapLoop_enough twoPI x1 n x2) as [r Hrun]; [lra|].
    rewrite Hrun. eexists; reflexivity.
  - destruct (Rgtb x2 x1).
    + destruct (unwrapLoop_enough twoPI x2 n x1) as [r Hrun]; [lra|].
      rewrite Hrun. eexists; reflexivity.
    + eexists; reflexivity.
Qed.

(** Longitudes within [unwrapLimit] are unwrapped by at most
    [unwrapTurns] additions. *)
Lemma unwrap_within_limit (x1 x2 : R) :
  Rabs x1 <= unwrapLimit -> Rabs x2 <= unwrapLimit ->
  exists r, unwrap (S unwrapTurns) (M_PI + M_PI) x1 x2 = Some r.
Proof.
  intros H1 H2. apply Rabs_le_iff in H1. apply Rabs_le_iff in H2.
  unfold unwrapLimit in *.
  apply unwrap_enough. rewrite INR_unwrapTurns.
  assert (Hpi : 3 < M_PI) by (unfold M_PI; pose proof PI2_3_2; lra).
  apply Rabs_le_iff. lra.
Qed.

(** What the unwrap step does to an edge: a whole number of turns is added
    to the smaller longitude, and the step [x2 - x1] ends in [[-pi, pi]]. *)
Lemma unwrap_result (x1 x2 : R) (fuel : nat) (x1' x2' : R) :
  unwrap fuel (M_PI + M_PI) x1 x2 = Some (x1', x2') ->
  (exists k : nat,
      (x1', x2') = if Rgtb x1 x2
                   then (x1, x2 + INR k * (M_PI + M_PI))
                   else (x1 + INR k * (M_PI + M_PI), x2)) /\
  - M_PI <= x2' - x1' <= M_PI.
Proof.
  unfold unwrap.
  destruct (Rgtb x1 x2) eqn:H12.
  - apply Rgtb_true in H12.
    destruct (unwrapLoop fuel (M_PI + M_PI) x1 x2) as [r|] eqn:Hrun; [|discriminate].
    intros Heq; injection Heq as <- <-.
    pose proof M_PI_pos.
    assert (Hlow : - M_PI < x1 - x2) by lra.
    destruct (unwrapLoop_result _ _ _ _ _ eq_refl Hlow Hrun) as ((k & Hk) & Hr).
    split; [exists k; rewrite Hk; reflexivity | lra].
  - apply Rgtb_false in H12.
    destruct (Rgtb x2 x1) eqn:H21.
    + apply Rgtb_true in H21.
      destruct (unwrapLoop fuel (M_PI + M_PI) x2 x1) as [r|] eqn:Hrun; [|discriminate].
      intros Heq; injection Heq as <- <-.
      pose proof M_PI_pos.
      assert (Hlow : - M_PI < x2 - x1) by lra.
      destruct (unwrapLoop_result _ _ _ _ _ eq_refl Hlow Hrun) as ((k & Hk) & Hr).
      split; [exists k; rewrite Hk; reflexivity | lra].
    + apply Rgtb_false in H21.
      intros Heq; injection Heq as <- <-.
      pose proof M_PI_pos.
      split; [exists 0%nat; cbn [INR]; f_equal; lra | lra].
Qed.

(** C6, as the code has it: in the ellipsoidal area computation the unwrap
    step of every edge whose longitudes are at most [unwrapLimit] radians
    in absolute value terminates; and the unwrap step of any edge, when it
    returns, has added a whole number of turns to the smaller of the two
    longitudes and leaves a step [dx = x2 - x1] in the closed interval
    [[-pi, pi]]. *)
Theorem unwrap_step_within_half_turn :
  forall (collab : Collaborators) (d : QgsDistanceArea) (x1 x2 : R),
    Reachable d -> willUseEllipsoid d = true ->
    (Rabs x1 <= unwrapLimit -> Rabs x2 <= unwrapLimit ->
     exists fuel r, unwrap fuel (m_TwoPI d) x1 x2 = Some r) /\
    (forall fuel x1' x2',
        unwrap fuel (m_TwoPI d) x1 x2 = Some (x1', x2') ->
        (exists k : nat,
            (x1', x2') = if Rgtb x1 x2
                         then (x1, x2 + INR k * (M_PI + M_PI))
                         else (x1 + INR k * (M_PI + M_PI), x2)) /\
        - M_PI <= x2' - x1' <= M_PI).
Proof.
  intros collab d x1 x2 Hreach Huse.
  destruct (Reachable_constants d Hreach Huse) as [Htwo _].
  rewrite Htwo.
  split.
  - intros H1 H2. exists (S unwrapTurns). apply unwrap_within_limit; assumption.
  - intros fuel x1' x2'. apply unwrap_result.
Qed.

Lemma unwrap_step_within_half_turn_witness :
  (exists fuel r, unwrap fuel (m_TwoPI wgs84) 4 0 = Some r) /\
  (forall fuel x1' x2',
      unwrap fuel (m_TwoPI wgs84) 4 0 = Some (x1', x2') ->
      (exists k : nat,
          (x1', x2') = if Rgtb 4 0
                       then (4, 0 + INR k * (M_PI + M_PI))
                       else (4 + INR k * (M_PI + M_PI), 0)) /\
      - M_PI <= x2' - x1' <= M_PI).
Proof.
  destruct (unwrap_step_within_half_turn planeCollaborators wgs84 4 0
              wgs84_reachable wgs84_willUse) as [Hends Hstep].
  split; [|exact Hstep].
  apply Hends; unfold unwrapLimit; apply Rabs_le_iff; lra.
Defined.

(** C6, as stated, fails: on the edge from longitude 180 degrees to
    longitude 0 ([x1 = pi], [x2 = 0]) the difference [x1 - x2] is exactly
    pi, not greater, so nothing is unwrapped and [dx = -pi], which is
    outside the half-open interval [(-pi, pi]]. *)
Lemma unwrap_step_reaches_minus_pi :
  DEG2RAD 180 = M_PI /\ DEG2RAD 0 = 0 /\
  unwrap 1 (m_TwoPI wgs84) (DEG2RAD 180) (DEG2RAD 0) = Some (M_PI, 0) /\
  0 - M_PI = - M_PI /\
  ~ (- M_PI < 0 - M_PI <= M_PI).
Proof.
  assert (H180 : DEG2RAD 180 = M_PI) by (unfold DEG2RAD; lra).
  assert (H0 : DEG2RAD 0 = 0) by (unfold DEG2RAD; lra).
  pose proof M_PI_pos as Hpi.
  split; [exact H180|]. split; [exact H0|].
  split; [|split; lra].
  rewrite H180, H0. unfold unwrap. cbn [unwrapLoop].
  assert (H1 : Rgtb M_PI 0 = true) by (apply Rgtb_true; lra).
  assert (H2 : Rgtb (M_PI - 0) M_PI = false) by (apply Rgtb_false; lra).
  rewrite H1, H2. reflexivity.
Qed.

(* ================================================================= *)
(** ** Polygon area: the ellipsoidal branch *)

(** The edge walk by counting.  With every vertex within [K] half turns,
    the longitude carried into edge number [j] is within [K + j] half
    turns (the unwrap step leaves it within pi of the previous one), so
    the two longitudes of an edge are never more than [2 K + j] half turns
    apart and [n] additions unwrap it when [2 K + j <= 2 n + 1]. *)
Lemma edgeLoop_enough (d : QgsDistanceArea) (K n : nat) :
  m_TwoPI d = M_PI + M_PI ->
  forall (points : list QgsPointXY) (j : nat) (x2 y2 Qbar2 area : R),
    (forall p, In p points -> Rabs (DEG2RAD (px p)) <= INR K * M_PI) ->
    Rabs x2 <= INR (K + j) * M_PI ->
    (K + K + j + List.length points <= n + n + 1)%nat ->
    exists r, edgeLoop (S n) d points x2 y2 Qbar2 area = Some r.
Proof.
  intros Htwo. pose proof M_PI_pos as Hpi.
  induction points as [|p points IH]; intros j x2 y2 Qbar2 area Hall Hx2 Hlen.
  - eexists; reflexivity.
  - cbn [List.length] in Hlen.
    assert (Hp : Rabs (DEG2RAD (px p)) <= INR K * M_PI)
      by (apply Hall; left; reflexivity).
    apply Rabs_le_iff in Hp. apply Rabs_le_iff in Hx2.
    rewrite plus_INR in Hx2.
    assert (Hcount : INR K + INR K + INR j <= INR n + INR n).
    { rewrite <- !plus_INR. apply le_INR. lia. }
    assert (Hwide : (INR K + INR K + INR j) * M_PI <= (INR n + INR n) * M_PI)
      by (apply Rmult_le_compat_r; lra).
    destruct (unwrap_enough (M_PI + M_PI) x2 (DEG2RAD (px p)) n)
      as [[x1' x2'] Hu]; [apply Rabs_le_iff; lra|].
    destruct (unwrap_result _ _ _ _ _ Hu) as [[k Hk] Hstep].
    cbn [edgeLoop]. rewrite Htwo, Hu.
    apply (IH (S j)).
    + intros q Hq. apply Hall. right. exact Hq.
    + apply Rabs_le_iff. rewrite plus_INR, S_INR.
      assert (Hj : 0 <= INR j * M_PI)
        by (apply Rmult_le_pos; [apply pos_INR | lra]).
      destruct (Rgtb x2 (DEG2RAD (px p))); injection Hk as -> ->; lra.
    + lia.
Qed.

Lemma edgeSum_enough (d : QgsDistanceArea) (K : nat) (points : list QgsPointXY) :
  m_TwoPI d = M_PI + M_PI ->
  (forall p, In p points -> Rabs (DEG2RAD (px p)) <= INR K * M_PI) ->
  exists sum, edgeSum (S (K + List.length points)) d points = Some sum.
Proof.
  intros Htwo Hall. unfold edgeSum.
  apply (edgeLoop_enough d K (K + List.length points) Htwo points 0%nat);
    [exact Hall | | lia].
  rewrite Nat.add_0_r.
  destruct points as [|p points].
  - cbn [List.length Nat.sub nth QgsPointXY_default px].
    replace (DEG2RAD 0) with 0 by (unfold DEG2RAD; lra).
    rewrite Rabs_R0. apply Rmult_le_pos; [apply pos_INR | pose proof M_PI_pos; lra].
  - apply Hall. apply nth_In. cbn [List.length]. lia.
Qed.

(** A longitude within [longitudeLimit] degrees is within
    [longitudeHalfTurns] half turns. *)
Lemma DEG2RAD_within_limit (v : R) :
  Rabs v <= longitudeLimit ->
  Rabs (DEG2RAD v) <= INR longitudeHalfTurns * M_PI.
Proof.
  intros Hv. apply Rabs_le_iff in Hv. unfold longitudeLimit in Hv.
  rewrite INR_longitudeHalfTurns. apply Rabs_le_iff.
  pose proof M_PI_pos as Hpi. unfold DEG2RAD.
  assert (Hup : v * M_PI <= 1e9 * M_PI) by (apply Rmult_le_compat_r; lra).
  assert (Hlow : - 1e9 * M_PI <= v * M_PI) by (apply Rmult_le_compat_r; lra).
  lra.
Qed.

Section AreaFacts.
Context {collab : Collaborators}.

(** On a reachable object in ellipsoidal mode the edge walk of a vertex
    list with longitudes within [longitudeLimit] ends, after at most
    [longitudeHalfTurns] additions and one per vertex in any one unwrap
    loop. *)
Lemma edgeSum_terminates (d : QgsDistanceArea) (points : list QgsPointXY) :
  Reachable d -> willUseEllipsoid d = true ->
  (forall p, In p points -> Rabs (px p) <= longitudeLimit) ->
  exists fuel sum, edgeSum fuel d points = Some sum.
Proof.
  intros Hreach Huse Hall.
  destruct (Reachable_constants d Hreach Huse) as [Htwo _].
  exists (S (longitudeHalfTurns + List.length points)).
  apply edgeSum_enough; [exact Htwo|].
  intros p Hp. apply DEG2RAD_within_limit. apply Hall. exact Hp.
Qed.

End AreaFacts.

Lemma negate_if_negative (v : R) : (if Rltb v 0.0 then - v else v) = Rabs v.
Proof.
  cmp_case; unfold Rabs; destruct (Rcase_abs v); lra.
Qed.

Lemma polarEnclosureCorrection_nonneg (Eref area : R) :
  0 <= Eref -> 0 <= area -> 0 <= polarEnclosureCorrection Eref area.
Proof.
  intros HE Ha. unfold polarEnclosureCorrection.
  repeat cmp_case; lra.
Qed.

(** The three regimes of the correction for a non-negative [area]. *)
Lemma polarEnclosureCorrection_cases (Eref area : R) :
  0 <= Eref -> 0 <= area ->
  (area <= Eref / 2 -> polarEnclosureCorrection Eref area = area) /\
  (Eref / 2 < area <= Eref -> polarEnclosureCorrection Eref area = Eref - area) /\
  (Eref < area -> polarEnclosureCorrection Eref area = 0).
Proof.
  intros HE Ha. unfold polarEnclosureCorrection.
  repeat split; intros H; repeat cmp_case; lra.
Qed.

(** In ellipsoidal mode, on a non-empty vertex list, the function is the
    specification's post-processing applied to the edge sum. *)
Lemma computePolygonArea_ellipsoidal (fuel : nat) (d : QgsDistanceArea)
    (points : list QgsPointXY) :
  willUseEllipsoid d = true -> points <> [] ->
  computePolygonArea fuel d points
  = option_map (spec_ellipsoidalArea (m_AE d) (m_E d)) (edgeSum fuel d points).
Proof.
  intros Huse Hne. unfold computePolygonArea.
  destruct points as [|p points]; [contradiction|].
  rewrite Huse. cbn [negb].
  destruct (edgeSum fuel d (p :: points)) as [sum|]; [|reflexivity].
  cbn [option_map]. rewrite negate_if_negative. reflexivity.
Qed.

Lemma computePolygonArea_ellipsoidal_empty (fuel : nat) (d : QgsDistanceArea) :
  0 <= m_E d ->
  computePolygonArea fuel d []
  = option_map (spec_ellipsoidalArea (m_AE d) (m_E d)) (edgeSum fuel d []).
Proof.
  intros HE. cbn. f_equal.
  unfold spec_ellipsoidalArea, polarEnclosureCorrection.
  replace (Rabs (0.0 * m_AE d)) with 0
    by (replace (0.0 * m_AE d) with 0 by lra; symmetry; apply Rabs_R0).
  repeat cmp_case; lra.
Qed.

(** C4: in ellipsoidal mode, for every vertex list with longitudes within
    [longitudeLimit] degrees, the edge walk ends, and for every vertex
    list the function returns the accumulated edge sum multiplied by
    [AE], in absolute value, then clamped to [Eref] if larger, then
    replaced by [Eref - area] if (after the clamp) larger than
    [Eref / 2]. *)
Theorem computePolygonArea_polar_correction :
  forall (collab : Collaborators) (d : QgsDistanceArea) (points : list QgsPointXY),
    Reachable d -> willUseEllipsoid d = true ->
    ((forall p, In p points -> Rabs (px p) <= longitudeLimit) ->
     exists fuel sum, edgeSum fuel d points = Some sum) /\
    (forall fuel,
        computePolygonArea fuel d points
        = option_map
            (fun sum =>
               polarEnclosureCorrection (m_E d) (Rabs (sum * m_AE d)))
            (edgeSum fuel d points)).
Proof.
  intros collab d points Hreach Huse.
  split; [intros Hlon; apply edgeSum_terminates; assumption|].
  intros fuel.
  destruct points as [|p points].
  - apply computePolygonArea_ellipsoidal_empty.
    apply (Reachable_constants d Hreach Huse).
  - apply computePolygonArea_ellipsoidal; [exact Huse | discriminate].
Qed.

Lemma computePolygonArea_polar_correction_witness :
  (exists fuel sum, edgeSum fuel wgs84 [mkPointXY 0 0; mkPointXY 1 0; mkPointXY 0 1]
                    = Some sum) /\
  (forall fuel,
      computePolygonArea fuel wgs84 [mkPointXY 0 0; mkPointXY 1 0; mkPointXY 0 1]
      = option_map
          (fun sum =>
             polarEnclosureCorrection (m_E wgs84) (Rabs (sum * m_AE wgs84)))
          (edgeSum fuel wgs84 [mkPointXY 0 0; mkPointXY 1 0; mkPointXY 0 1])).
Proof.
  destruct (computePolygonArea_polar_correction planeCollaborators wgs84
              [mkPointXY 0 0; mkPointXY 1 0; mkPointXY 0 1]
              wgs84_reachable wgs84_willUse) as [Hends Hvalue].
  split; [apply Hends; exact triangle_within_limit | exact Hvalue].
Defined.

(** C5: in ellipsoidal mode with a semi-major axis other than 0 (with 0
    the quotient [b^2 / a^2] of [computeAreaInit] has no value and the
    area constants of the source are not numbers), [computePolygonArea]
    returns a value for every vertex list with longitudes within
    [longitudeLimit] degrees, and the value it returns, for any vertex
    list, is greater than or equal to 0. *)
Theorem computePolygonArea_ellipsoidal_nonneg :
  forall (collab : Collaborators) (d : QgsDistanceArea) (points : list QgsPointXY),
    Reachable d -> willUseEllipsoid d = true ->
    mSemiMajor d <> 0 ->
    ((forall p, In p points -> Rabs (px p) <= longitudeLimit) ->
     exists fuel area, computePolygonArea fuel d points = Some area) /\
    (forall fuel area, computePolygonArea fuel d points = Some area -> 0 <= area).
Proof.
  intros collab d points Hreach Huse _.
  destruct (Reachable_constants d Hreach Huse) as [_ HE].
  destruct points as [|p points].
  - split.
    + intros _. exists 0%nat, 0. reflexivity.
    + intros fuel area Hrun. cbn in Hrun. injection Hrun as <-. lra.
  - assert (Hne : p :: points <> []) by discriminate.
    split.
    + intros Hlon.
      destruct (edgeSum_terminates d (p :: points) Hreach Huse Hlon)
        as (fuel & sum & Hsum).
      exists fuel. rewrite (computePolygonArea_ellipsoidal fuel d _ Huse Hne), Hsum.
      eexists; reflexivity.
    + intros fuel area.
      rewrite (computePolygonArea_ellipsoidal fuel d _ Huse Hne).
      destruct (edgeSum fuel d (p :: points)) as [sum|]; [|discriminate].
      cbn [option_map]. intros Heq; injection Heq as <-.
      apply polarEnclosureCorrection_nonneg; [exact HE | apply Rabs_pos].
Qed.

Lemma computePolygonArea_ellipsoidal_nonneg_witness :
  (exists fuel area,
      computePolygonArea fuel wgs84 [mkPointXY 0 0; mkPointXY 1 0; mkPointXY 0 1]
      = Some area) /\
  (forall fuel area,
      computePolygonArea fuel wgs84 [mkPointXY 0 0; mkPointXY 1 0; mkPointXY 0 1]
      = Some area -> 0 <= area).
Proof.
  destruct (computePolygonArea_ellipsoidal_nonneg planeCollaborators wgs84
              [mkPointXY 0 0; mkPointXY 1 0; mkPointXY 0 1]
              wgs84_reachable wgs84_willUse wgs84_semiMajor) as [Hends Hsign].
  split; [apply Hends; exact triangle_within_limit | exact Hsign].
Defined.

(* ================================================================= *)
(** ** Polygon area: the planar branch *)

Lemma fold_left_accumulate (g : R -> nat -> R) (term : nat -> R) :
  (forall acc i, g acc i = acc + term i) ->
  forall (l : list nat) (acc : R),
    fold_left g l acc = acc + sumR (map term l).
Proof.
  intros Hg. induction l as [|i l IH]; intros acc; cbn [fold_left map].
  - unfold sumR. cbn [fold_right]. lra.
  - rewrite IH, Hg. unfold sumR. cbn [fold_right]. lra.
Qed.

Lemma length_cyclicSuccessors (points : list QgsPointXY) :
  List.length (cyclicSuccessors points) = List.length points.
Proof.
  unfold cyclicSuccessors. destruct points as [|p points]; [reflexivity|].
  cbn. rewrite length_app. cbn. lia.
Qed.

(** The successor list holds, at index [k], the vertex of index
    [(k + 1) mod n]. *)
Lemma nth_cyclicSuccessors (points : list QgsPointXY) (k : nat) (dflt : QgsPointXY) :
  (k < List.length points)%nat ->
  nth k (cyclicSuccessors points) dflt
  = nth ((k + 1) mod List.length points) points dflt.
Proof.
  destruct points as [|p points]; cbn [List.length]; [lia|].
  intros Hk. unfold cyclicSuccessors. cbn [tl firstn].
  destruct (Nat.eq_dec k (List.length points)) as [-> | Hlt].
  - rewrite nth_middle.
    replace (List.length points + 1)%nat with (S (List.length points)) by lia.
    rewrite Nat.Div0.mod_same. reflexivity.
  - rewrite app_nth1 by lia.
    rewrite Nat.mod_small by lia.
    replace (k + 1)%nat with (S k) by lia. reflexivity.
Qed.

(** The loop of [computePolygonFlatArea] adds up the specification's sum. *)
Lemma flatArea_loop_is_shoelaceSum (points : list QgsPointXY) :
  let size := List.length points in
  let pt := fun k => nth k points QgsPointXY_default in
  fold_left
    (fun area i =>
       area + px (pt i) * py (pt ((i + 1) mod size)%nat)
            - px (pt ((i + 1) mod size)%nat) * py (pt i))
    (seq 0 size) 0.0
  = shoelaceSum points.
Proof.
  intros size pt.
  set (term := fun i => px (pt i) * py (pt ((i + 1) mod size)%nat)
                        - px (pt ((i + 1) mod size)%nat) * py (pt i)).
  rewrite (fold_left_accumulate _ term) by (intros; unfold term; lra).
  replace (0.0 + sumR (map term (seq 0 size))) with (sumR (map term (seq 0 size)))
    by lra.
  unfold shoelaceSum. f_equal.
  set (cross := fun pq : QgsPointXY * QgsPointXY =>
                  px (fst pq) * py (snd pq) - px (snd pq) * py (fst pq)).
  apply (nth_ext _ _ (term 0%nat) (cross (QgsPointXY_default, QgsPointXY_default))).
  - rewrite !length_map, length_seq, length_combine, length_cyclicSuccessors.
    subst size. lia.
  - rewrite length_map, length_seq. intros k Hk.
    rewrite !map_nth, seq_nth by exact Hk.
    rewrite combine_nth by (symmetry; apply length_cyclicSuccessors).
    rewrite nth_cyclicSuccessors by exact Hk.
    reflexivity.
Qed.

Lemma computePolygonFlatArea_shoelace (points : list QgsPointXY) :
  computePolygonFlatArea points = spec_planarArea points.
Proof.
  unfold computePolygonFlatArea, spec_planarArea.
  rewrite flatArea_loop_is_shoelaceSum.
  unfold fabs, Rabs.
  destruct (Rcase_abs (shoelaceSum points / 2.0));
    destruct (Rcase_abs (shoelaceSum points)); lra.
Qed.

(** C7: with no ellipsoid configured, for every non-empty vertex list the
    function returns the shoelace value
    [1/2 * |Sigma (x_i * y_{i+1} - x_{i+1} * y_i)|], indices wrapping
    modulo the number of vertices. *)
Theorem computePolygonArea_planar_shoelace :
  forall (fuel : nat) (d : QgsDistanceArea) (points : list QgsPointXY),
    willUseEllipsoid d = false -> points <> [] ->
    computePolygonArea fuel d points
    = Some (1 / 2 * Rabs (shoelaceSum points)).
Proof.
  intros fuel d points Hplanar Hne.
  unfold computePolygonArea.
  destruct points as [|p points]; [contradiction|].
  rewrite Hplanar. cbn [negb].
  rewrite computePolygonFlatArea_shoelace. reflexivity.
Qed.

Lemma computePolygonArea_planar_shoelace_witness :
  computePolygonArea 0 QgsDistanceArea_new [mkPointXY 0 0; mkPointXY 1 0; mkPointXY 0 1]
  = Some (1 / 2 * Rabs (shoelaceSum [mkPointXY 0 0; mkPointXY 1 0; mkPointXY 0 1])).
Proof.
  apply (computePolygonArea_planar_shoelace 0 QgsDistanceArea_new
           [mkPointXY 0 0; mkPointXY 1 0; mkPointXY 0 1]).
  - reflexivity.
  - discriminate.
Defined.

(** The planar triangle (0,0), (1,0), (0,1) of the specification's
    scenario 5 has area 0.5. *)
Lemma planar_triangle_area :
  computePolygonArea 0 QgsDistanceArea_new [mkPointXY 0 0; mkPointXY 1 0; mkPointXY 0 1]
  = Some 0.5.
Proof.
  change (Some (computePolygonFlatArea [mkPointXY 0 0; mkPointXY 1 0; mkPointXY 0 1])
          = Some 0.5).
  rewrite computePolygonFlatArea_shoelace.
  f_equal. unfold spec_planarArea, shoelaceSum. cbn.
  replace (0 * 0 - 1 * 0 + (1 * 1 - 0 * 0 + (0 * 0 - 0 * 1 + 0))) with 1 by lra.
  rewrite Rabs_R1. lra.
Qed.

(* ================================================================= *)
(** ** Antimeridian crossing: the fraction along the line *)

Lemma crossedAntimeridian_true (prevLon lon : R) :
  crossedAntimeridian prevLon lon = true
  <-> (prevLon < -120 /\ lon > 120) \/ (prevLon > 120 /\ lon < -120).
Proof.
  unfold crossedAntimeridian.
  rewrite orb_true_iff, !andb_true_iff, !Rltb_true, !Rgtb_true.
  reflexivity.
Qed.

Lemma window_fraction_range (a b : R) :
  a <> b -> a <= 180 <= b \/ b = 180 -> 0 <= (180 - a) / (b - a) <= 1.
Proof.
  intros Hne [Hab | ->].
  - assert (Hinv : 0 < / (b - a)) by (apply Rinv_0_lt_compat; lra).
    unfold Rdiv. split.
    + apply Rmult_le_pos; lra.
    + replace 1 with ((b - a) * / (b - a)) by (field; lra).
      apply Rmult_le_compat_r; lra.
  - replace ((180 - a) / (180 - a)) with 1 by (field; lra). lra.
Qed.

(** For endpoints that pass the callers' test, lie in [-180, 180] and are
    not both on the antimeridian, the shift and the reordering leave a
    window [p1x <= 180 <= p2x] of non-zero width, or, when the first
    endpoint is at longitude 180 exactly, the window [p2x = 180 < p1x]. *)
Lemma orderEndpoints_window (pp1 pp2 : QgsPointXY) (p1_x p1x p1y p2x p2y : R) :
  crossedAntimeridian (px pp1) (px pp2) = true ->
  -180 <= px pp1 <= 180 -> -180 <= px pp2 <= 180 ->
  Rabs (px pp1 - px pp2) < 360 ->
  orderEndpoints pp1 pp2 = (p1_x, p1x, p1y, p2x, p2y) ->
  p1x <> p2x /\ (p1x <= 180 <= p2x \/ p2x = 180).
Proof.
  intros Hcross H1 H2 Hdist.
  apply crossedAntimeridian_true in Hcross.
  assert (Hd : -360 < px pp1 - px pp2 < 360).
  { revert Hdist. unfold Rabs. destruct (Rcase_abs (px pp1 - px pp2)); lra. }
  unfold orderEndpoints.
  repeat (cmp_case; cbn [px py] in * );
    intros Heq; injection Heq as <- <- <- <- <-; split; lra.
Qed.

Section CrossingFacts.
Context {collab : Collaborators}.

Lemma latitudeGeodesicCrossesAntimeridian_planar (d : QgsDistanceArea)
    (pp1 pp2 : QgsPointXY) (p1_x p1x p1y p2x p2y : R) :
  mEllipsoid d = GEO_NONE ->
  orderEndpoints pp1 pp2 = (p1_x, p1x, p1y, p2x, p2y) ->
  latitudeGeodesicCrossesAntimeridian d pp1 pp2
  = (p1y + (180 - p1x) / (p2x - p1x) * (p2y - p1y),
     if Rgeb p1_x 180 then 1 - (180 - p1x) / (p2x - p1x)
     else (180 - p1x) / (p2x - p1x)).
Proof.
  intros Hnone Hord. unfold latitudeGeodesicCrossesAntimeridian.
  rewrite Hord, Hnone, String.eqb_refl. reflexivity.
Qed.

Lemma crossStep_iterations (a f : R) (s : CrossState) :
  c_iterations (crossStep a f s) = (c_iterations s + 1)%Z.
Proof.
  unfold crossStep.
  destruct ((c_iterations s >? 0)%Z && Rgtb (fabs (c_p2x s - c_p1x s)) 5).
  - destruct (Rltb (c_lon s) 180); cbn [c_line c_intersectionDist];
      match goal with |- context [geod_position ?l ?x] =>
        destruct (geod_position l x) end; reflexivity.
  - cbn [c_line c_intersectionDist].
    match goal with |- context [geod_position ?l ?x] =>
      destruct (geod_position l x) end; reflexivity.
Qed.

Lemma crossLoop_run (a f : R) :
  forall (gas : nat) (s : CrossState),
    c_iterations s = (100 - Z.of_nat gas)%Z ->
    (c_iterations s <= c_iterations (crossLoop gas a f s) <= 100)%Z /\
    (fabs (c_lon (crossLoop gas a f s) - 180.0) <= 0.00000001
     \/ c_iterations (crossLoop gas a f s) = 100%Z).
Proof.
  induction gas as [|gas IH]; intros s Hi; cbn [crossLoop].
  - split; [lia | right; lia].
  - destruct (Rgtb (fabs (c_lon s - 180.0)) 0.00000001) eqn:Hfar; cbn [andb].
    + destruct (c_iterations s <? 100)%Z eqn:Hlt.
      * destruct (IH (crossStep a f s)) as [Hrange Hexit].
        { rewrite crossStep_iterations. lia. }
        rewrite crossStep_iterations in Hrange.
        split; [lia | exact Hexit].
      * apply Z.ltb_ge in Hlt. split; [lia | right; lia].
    + apply Rgtb_false in Hfar. split; [lia | left; exact Hfar].
Qed.





End CrossingFacts.







(** Scenario 3 of the specification without an ellipsoid: the segment from
    (170, 0) to (-170, 0) meets the antimeridian half-way, at latitude 0. *)
Lemma antimeridian_midpoint :
  latitudeGeodesicCrossesAntimeridian (collab := planeCollaborators)
    QgsDistanceArea_new (mkPointXY 170 0) (mkPointXY (-170) 0)
  = (0, 0.5).
Proof.
  unfold latitudeGeodesicCrossesAntimeridian, orderEndpoints.
  repeat (cmp_case; cbn [px py] in * ); try lra.
  cbn. f_equal; lra.
Qed.


(* ================================================================= *)
(** ** Further properties *)

(** The lambda iteration of [computeDistanceBearing] never runs its body
    more than 19 times: the counter starts at 20 and is decremented before
    it is compared with 0. *)
Lemma vincentyIterate_at_most_19 :
  forall (d : QgsDistanceArea) (p1 p2 : QgsPointXY),
    (snd (vincentyIterate d p1 p2) <= 19)%nat.
Proof.
  intros d p1 p2. unfold vincentyIterate.
  destruct (lambdaLoop_run (vincentyBody (vincentySetup d p1 p2)) 19
              (vincentyInit (vs_L (vincentySetup d p1 p2))) 0)
    as (m & il & Hrun & Hm & _).
  change (Z.of_nat 20) with 20%Z in Hrun.
  rewrite Hrun. cbn [snd]. lia.
Qed.

(** [setEllipsoid( id )] with an identifier the catalogue does not know
    returns false and leaves the object as it was. *)
Lemma setEllipsoid_id_invalid :
  forall (collab : Collaborators) (d : QgsDistanceArea) (ellipsoid : string),
    ellipsoid <> GEO_NONE ->
    valid (ellipsoidParameters ellipsoid) = false ->
    setEllipsoid_id d ellipsoid = (d, false).
Proof.
  intros collab d ellipsoid Hid Hinvalid.
  unfold setEllipsoid_id.
  apply String.eqb_neq in Hid. rewrite Hid, Hinvalid. reflexivity.
Qed.

Lemma setEllipsoid_id_invalid_witness :
  setEllipsoid_id (collab := planeCollaborators) QgsDistanceArea_new "WGS84"
  = (QgsDistanceArea_new, false).
Proof.
  apply (setEllipsoid_id_invalid planeCollaborators QgsDistanceArea_new "WGS84").
  - discriminate.
  - reflexivity.
Defined.

(** [setEllipsoid( "NONE" )] returns true and switches the ellipsoidal
    paths off. *)
Lemma setEllipsoid_id_none :
  forall (collab : Collaborators) (d : QgsDistanceArea),
    snd (setEllipsoid_id d GEO_NONE) = true /\
    willUseEllipsoid (fst (setEllipsoid_id d GEO_NONE)) = false.
Proof. intros collab d. split; reflexivity. Qed.

(* ================================================================= *)
(** ** The derived constants *)

(** The squared eccentricity [computeAreaInit] works with. *)
Lemma computeAreaInit_series (d : QgsDistanceArea) :
  String.eqb (mEllipsoid d) GEO_NONE = false ->
  let e2 := 1 - (mSemiMinor d * mSemiMinor d) / (mSemiMajor d * mSemiMajor d) in
  let d' := computeAreaInit d in
  m_TwoPI d' = M_PI + M_PI /\
  m_AE d' = mSemiMajor d * mSemiMajor d * (1 - e2) /\
  m_QA d' = 2 / 3 * e2 /\
  m_QB d' = 3 / 5 * (e2 * e2) /\
  m_QC d' = 4 / 7 * (e2 * e2 * e2) /\
  m_QbarA d' = -1 - 2 / 3 * e2 - 3 / 5 * (e2 * e2) - 4 / 7 * (e2 * e2 * e2) /\
  m_QbarB d' = 2 / 9 * e2 + 2 / 5 * (e2 * e2) + 4 / 7 * (e2 * e2 * e2) /\
  m_QbarC d' = - (3 / 25) * (e2 * e2) - 12 / 35 * (e2 * e2 * e2) /\
  m_QbarD d' = 4 / 49 * (e2 * e2 * e2) /\
  m_Qp d' = 1 + m_QA d' + m_QB d' + m_QC d' /\
  m_E d' = Rabs (4 * M_PI * m_Qp d' * m_AE d').
Proof.
  intros Hsome e2 d'. subst d'. unfold computeAreaInit. rewrite Hsome.
  cbn [m_TwoPI m_AE m_QA m_QB m_QC m_QbarA m_QbarB m_QbarC m_QbarD m_Qp m_E
       with_E with_Qp withSeries].
  fold e2.
  assert (HQp : getQ
                  (withSeries d (M_PI + M_PI)
                     (mSemiMajor d * mSemiMajor d * (1 - e2))
                     (2.0 / 3.0 * e2) (3.0 / 5.0 * (e2 * e2))
                     (4.0 / 7.0 * (e2 * e2 * e2))
                     (-1.0 - 2.0 / 3.0 * e2 - 3.0 / 5.0 * (e2 * e2)
                      - 4.0 / 7.0 * (e2 * e2 * e2))
                     (2.0 / 9.0 * e2 + 2.0 / 5.0 * (e2 * e2)
                      + 4.0 / 7.0 * (e2 * e2 * e2))
                     (- (3.0 / 25.0) * (e2 * e2) - 12.0 / 35.0 * (e2 * e2 * e2))
                     (4.0 / 49.0 * (e2 * e2 * e2))) M_PI_2
                = 1 + 2 / 3 * e2 + 3 / 5 * (e2 * e2) + 4 / 7 * (e2 * e2 * e2)).
  { unfold getQ, M_PI_2. cbn [m_QA m_QB m_QC withSeries]. rewrite sin_PI2. lra. }
  rewrite HQp.
  repeat split; try lra.
  rewrite negate_if_negative. reflexivity.
Qed.

Lemma computeAreaInit_sourceCrs (d : QgsDistanceArea) :
  mSourceCrs (computeAreaInit d) = mSourceCrs d.
Proof.
  unfold computeAreaInit.
  destruct (String.eqb (mEllipsoid d) GEO_NONE); reflexivity.
Qed.

(** What [computeAreaInit] writes depends on the axes alone. *)
Lemma computeAreaInit_only_axes (d d' : QgsDistanceArea) :
  String.eqb (mEllipsoid d) GEO_NONE = false ->
  mSourceCrs d = mSourceCrs d' ->
  mEllipsoid d = mEllipsoid d' ->
  mSemiMajor d = mSemiMajor d' ->
  mSemiMinor d = mSemiMinor d' ->
  mInvFlattening d = mInvFlattening d' ->
  computeAreaInit d = computeAreaInit d'.
Proof.
  destruct d, d'.
  cbn [mSourceCrs mEllipsoid mSemiMajor mSemiMinor mInvFlattening].
  intros Hsome -> -> -> -> ->.
  unfold computeAreaInit.
  cbn [mEllipsoid]. rewrite Hsome.
  reflexivity.
Qed.

Lemma computeAreaInit_idempotent (d : QgsDistanceArea) :
  computeAreaInit (computeAreaInit d) = computeAreaInit d.
Proof.
  destruct (String.eqb (mEllipsoid d) GEO_NONE) eqn:Hnone.
  - assert (Hid : computeAreaInit d = d).
    { unfold computeAreaInit. rewrite Hnone. reflexivity. }
    rewrite !Hid. reflexivity.
  - destruct (computeAreaInit_axes d) as (Ha & Hb & Hf).
    apply computeAreaInit_only_axes.
    + rewrite computeAreaInit_ellipsoid. exact Hnone.
    + apply computeAreaInit_sourceCrs.
    + apply computeAreaInit_ellipsoid.
    + exact Ha.
    + exact Hb.
    + exact Hf.
Qed.

Lemma computeAreaInit_with_sourceCrs (d : QgsDistanceArea)
    (crs : QgsCoordinateReferenceSystem) :
  computeAreaInit (with_sourceCrs d crs) = with_sourceCrs (computeAreaInit d) crs.
Proof.
  unfold computeAreaInit. cbn [mEllipsoid with_sourceCrs].
  destruct (String.eqb (mEllipsoid d) GEO_NONE); reflexivity.
Qed.

Section ConstantFacts.
Context {collab : Collaborators}.

(** On a reachable object in ellipsoidal mode the area constants are up to
    date with the stored axes. *)
Lemma Reachable_recomputed (d : QgsDistanceArea) :
  Reachable d -> willUseEllipsoid d = true -> computeAreaInit d = d.
Proof.
  induction 1 as [d Hn _ _ _ | d crs _ IH | d id _ IH | d a b _ _]; intros Huse.
  - unfold willUseEllipsoid in Huse. rewrite Hn in Huse. discriminate.
  - unfold setSourceCrs in *. rewrite computeAreaInit_with_sourceCrs.
    rewrite IH; [reflexivity | exact Huse].
  - revert Huse. unfold setEllipsoid_id.
    destruct (String.eqb id GEO_NONE) eqn:Hid.
    + cbn. discriminate.
    + destruct (valid (ellipsoidParameters id)); cbn [negb fst].
      * intros _. unfold setFromParams.
        destruct (useCustomParameters (ellipsoidParameters id)).
        -- rewrite setEllipsoid_ab_state. apply computeAreaInit_idempotent.
        -- apply computeAreaInit_idempotent.
      * exact IH.
  - rewrite setEllipsoid_ab_state. apply computeAreaInit_idempotent.
Qed.

End ConstantFacts.

(** Whatever configuration calls led to it, an object in ellipsoidal mode
    holds the area constants of its stored axes: with
    [e2 = 1 - b^2 / a^2], [AE = a^2 (1 - e2)], the series coefficients of
    [Q] and [Qbar], [Qp = 1 + QA + QB + QC] and [E = |4 pi Qp AE|]. *)
Theorem Reachable_constants_in_sync :
  forall (collab : Collaborators) (d : QgsDistanceArea),
    Reachable d -> willUseEllipsoid d = true ->
    let e2 := 1 - (mSemiMinor d * mSemiMinor d) / (mSemiMajor d * mSemiMajor d) in
    m_TwoPI d = M_PI + M_PI /\
    m_AE d = mSemiMajor d * mSemiMajor d * (1 - e2) /\
    m_QA d = 2 / 3 * e2 /\
    m_QB d = 3 / 5 * (e2 * e2) /\
    m_QC d = 4 / 7 * (e2 * e2 * e2) /\
    m_QbarA d = -1 - 2 / 3 * e2 - 3 / 5 * (e2 * e2) - 4 / 7 * (e2 * e2 * e2) /\
    m_QbarB d = 2 / 9 * e2 + 2 / 5 * (e2 * e2) + 4 / 7 * (e2 * e2 * e2) /\
    m_QbarC d = - (3 / 25) * (e2 * e2) - 12 / 35 * (e2 * e2 * e2) /\
    m_QbarD d = 4 / 49 * (e2 * e2 * e2) /\
    m_Qp d = 1 + m_QA d + m_QB d + m_QC d /\
    m_E d = Rabs (4 * M_PI * m_Qp d * m_AE d).
Proof.
  intros collab d Hreach Huse.
  assert (Hsome : String.eqb (mEllipsoid d) GEO_NONE = false).
  { unfold willUseEllipsoid in Huse. apply negb_true_iff in Huse. exact Huse. }
  pose proof (computeAreaInit_series d Hsome) as H.
  rewrite (Reachable_recomputed d Hreach Huse) in H.
  exact H.
Qed.

Lemma Reachable_constants_in_sync_witness :
  let e2 := 1 - (mSemiMinor wgs84 * mSemiMinor wgs84)
                / (mSemiMajor wgs84 * mSemiMajor wgs84) in
  m_TwoPI wgs84 = M_PI + M_PI /\
  m_AE wgs84 = mSemiMajor wgs84 * mSemiMajor wgs84 * (1 - e2) /\
  m_QA wgs84 = 2 / 3 * e2 /\
  m_QB wgs84 = 3 / 5 * (e2 * e2) /\
  m_QC wgs84 = 4 / 7 * (e2 * e2 * e2) /\
  m_QbarA wgs84 = -1 - 2 / 3 * e2 - 3 / 5 * (e2 * e2) - 4 / 7 * (e2 * e2 * e2) /\
  m_QbarB wgs84 = 2 / 9 * e2 + 2 / 5 * (e2 * e2) + 4 / 7 * (e2 * e2 * e2) /\
  m_QbarC wgs84 = - (3 / 25) * (e2 * e2) - 12 / 35 * (e2 * e2 * e2) /\
  m_QbarD wgs84 = 4 / 49 * (e2 * e2 * e2) /\
  m_Qp wgs84 = 1 + m_QA wgs84 + m_QB wgs84 + m_QC wgs84 /\
  m_E wgs84 = Rabs (4 * M_PI * m_Qp wgs84 * m_AE wgs84).
Proof.
  exact (Reachable_constants_in_sync planeCollaborators wgs84
           wgs84_reachable wgs84_willUse).
Defined.

(** [setEllipsoid( id )] fails exactly on an identifier other than NONE
    that the catalogue does not know, and a failed call leaves the object
    as it was. *)
Theorem setEllipsoid_id_false_iff :
  forall (collab : Collaborators) (d : QgsDistanceArea) (ellipsoid : string),
    (snd (setEllipsoid_id d ellipsoid) = false
     <-> ellipsoid <> GEO_NONE /\ valid (ellipsoidParameters ellipsoid) = false) /\
    (snd (setEllipsoid_id d ellipsoid) = false -> fst (setEllipsoid_id d ellipsoid) = d).
Proof.
  intros collab d ellipsoid. unfold setEllipsoid_id.
  destruct (String.eqb ellipsoid GEO_NONE) eqn:Hid.
  - apply String.eqb_eq in Hid. cbn [fst snd]. split.
    + split; [discriminate | intros [Hne _]; contradiction].
    + discriminate.
  - apply String.eqb_neq in Hid.
    destruct (valid (ellipsoidParameters ellipsoid)); cbn [negb fst snd]; split.
    + split; [discriminate | intros [_ Hv]; discriminate].
    + discriminate.
    + split; [intros _; split; [exact Hid | reflexivity] | reflexivity].
    + reflexivity.
Qed.

(** For an oblate ellipsoid, [0 < b <= a], set by its radii: [AE] is
    [b^2], the polar value [Qp] of the series is at least 1, and the
    reference area [E] is [4 pi Qp b^2], a positive number. *)
Theorem setEllipsoid_ab_oblate_constants :
  forall (collab : Collaborators) (d : QgsDistanceArea) (a b : R),
    0 < b <= a ->
    let d' := fst (setEllipsoid_ab d a b) in
    m_AE d' = b * b /\
    1 <= m_Qp d' /\
    m_E d' = 4 * M_PI * m_Qp d' * (b * b) /\
    0 < m_E d'.
Proof.
  intros collab d a b Hab d'. subst d'.
  rewrite setEllipsoid_ab_state.
  set (d0 := with_axes _ a b (a / (a - b))).
  assert (Hsome : String.eqb (mEllipsoid d0) GEO_NONE = false) by reflexivity.
  destruct (computeAreaInit_series d0 Hsome)
    as (_ & HAE & HQA & HQB & HQC & _ & _ & _ & _ & HQp & HE).
  change (mSemiMajor d0) with a in *. change (mSemiMinor d0) with b in *.
  set (e2 := 1 - b * b / (a * a)) in *.
  assert (Hq : 0 < b * b / (a * a) <= 1).
  { assert (0 < a * a) by nra. assert (0 < b * b) by nra.
    split.
    - apply Rdiv_lt_0_compat; assumption.
    - apply (Rmult_le_reg_r (a * a)); [assumption|].
      replace (b * b / (a * a) * (a * a)) with (b * b) by (field; lra).
      nra. }
  assert (He : 0 <= e2 < 1) by (unfold e2; lra).
  assert (HAEb : m_AE (computeAreaInit d0) = b * b).
  { rewrite HAE. unfold e2. field. lra. }
  clearbody e2.
  assert (HQp1 : 1 <= m_Qp (computeAreaInit d0)).
  { rewrite HQp, HQA, HQB, HQC.
    assert (H2 : 0 <= e2 * e2) by nra.
    assert (H3 : 0 <= e2 * e2 * e2) by (apply Rmult_le_pos; lra).
    nra. }
  pose proof M_PI_pos as Hpi.
  assert (Hpos : 0 < 4 * M_PI * m_Qp (computeAreaInit d0) * (b * b)).
  { assert (0 < b * b) by nra.
    assert (0 < m_Qp (computeAreaInit d0)) by lra.
    assert (0 < 4 * M_PI) by lra.
    apply Rmult_lt_0_compat; [apply Rmult_lt_0_compat|]; assumption. }
  split; [exact HAEb|]. split; [exact HQp1|].
  rewrite HE, HAEb. rewrite Rabs_right by lra.
  split; [reflexivity | exact Hpos].
Qed.

Lemma setEllipsoid_ab_oblate_constants_witness :
  let d' := fst (setEllipsoid_ab (collab := planeCollaborators)
                   QgsDistanceArea_new 6378137 6356752) in
  m_AE d' = 6356752 * 6356752 /\
  1 <= m_Qp d' /\
  m_E d' = 4 * M_PI * m_Qp d' * (6356752 * 6356752) /\
  0 < m_E d'.
Proof.
  apply (setEllipsoid_ab_oblate_constants planeCollaborators
           QgsDistanceArea_new 6378137 6356752).
  lra.
Defined.

(** For a sphere, [a = b] (of either sign, not 0), set by its radii, the
    reference area [E] is the surface of the sphere, [4 pi a^2]. *)
Theorem setEllipsoid_ab_sphere_area :
  forall (collab : Collaborators) (d : QgsDistanceArea) (a : R),
    a <> 0 ->
    let d' := fst (setEllipsoid_ab d a a) in
    m_Qp d' = 1 /\ m_AE d' = a * a /\ m_E d' = 4 * M_PI * (a * a).
Proof.
  intros collab d a Ha d'. subst d'.
  rewrite setEllipsoid_ab_state.
  set (d0 := with_axes _ a a (a / (a - a))).
  assert (Hsome : String.eqb (mEllipsoid d0) GEO_NONE = false) by reflexivity.
  destruct (computeAreaInit_series d0 Hsome)
    as (_ & HAE & HQA & HQB & HQC & _ & _ & _ & _ & HQp & HE).
  change (mSemiMajor d0) with a in *. change (mSemiMinor d0) with a in *.
  assert (He : 1 - a * a / (a * a) = 0) by (field; exact Ha).
  rewrite He in *.
  assert (HQp1 : m_Qp (computeAreaInit d0) = 1) by lra.
  assert (HAEa : m_AE (computeAreaInit d0) = a * a) by lra.
  split; [exact HQp1|]. split; [exact HAEa|].
  rewrite HE, HQp1, HAEa.
  pose proof M_PI_pos as Hpi.
  assert (0 <= a * a) by nra.
  rewrite Rabs_right; [lra|].
  apply Rle_ge. apply Rmult_le_pos; lra.
Qed.

Lemma setEllipsoid_ab_sphere_area_witness :
  let d' := fst (setEllipsoid_ab (collab := planeCollaborators)
                   QgsDistanceArea_new 6371000 6371000) in
  m_Qp d' = 1 /\ m_AE d' = 6371000 * 6371000 /\
  m_E d' = 4 * M_PI * (6371000 * 6371000).
Proof.
  apply (setEllipsoid_ab_sphere_area planeCollaborators QgsDistanceArea_new 6371000).
  lra.
Defined.

(* ================================================================= *)
(** ** The series [Q] and [Qbar] *)

Lemma odd_polynomial_derivative (A B C D c : R) :
  derivable_pt_lim
    (fun y => y * (A + y * y * (B + y * y * (C + y * y * D)))) c
    (A + 3 * B * (c * c) + 5 * C * (c * c * (c * c))
       + 7 * D * (c * c * (c * c) * (c * c))).
Proof.
  apply (derivable_pt_lim_ext
           (mult_real_fct A (fun y => y ^ 1) + mult_real_fct B (fun y => y ^ 3)
            + mult_real_fct C (fun y => y ^ 5) + mult_real_fct D (fun y => y ^ 7))%F).
  { intros z. unfold plus_fct, mult_real_fct. ring. }
  replace (A + 3 * B * (c * c) + 5 * C * (c * c * (c * c))
             + 7 * D * (c * c * (c * c) * (c * c)))
    with (A * (INR 1 * c ^ Nat.pred 1) + B * (INR 3 * c ^ Nat.pred 3)
          + C * (INR 5 * c ^ Nat.pred 5) + D * (INR 7 * c ^ Nat.pred 7))
    by (simpl; ring).
  repeat apply derivable_pt_lim_plus;
    apply derivable_pt_lim_scal; apply derivable_pt_lim_pow.
Qed.

(** After [computeAreaInit], [Q] is the derivative of [Qbar]. *)
Lemma computeAreaInit_Qbar_derivative (d : QgsDistanceArea) (v : R) :
  String.eqb (mEllipsoid d) GEO_NONE = false ->
  derivable_pt_lim (getQbar (computeAreaInit d)) v (getQ (computeAreaInit d) v).
Proof.
  intros Hsome.
  destruct (computeAreaInit_series d Hsome)
    as (_ & _ & HQA & HQB & HQC & HA & HB & HC & HD & _ & _).
  set (d' := computeAreaInit d) in *.
  set (e2 := 1 - mSemiMinor d * mSemiMinor d / (mSemiMajor d * mSemiMajor d)) in *.
  pose proof (derivable_pt_lim_comp cos _ v _ _
                (derivable_pt_lim_cos v)
                (odd_polynomial_derivative (m_QbarA d') (m_QbarB d') (m_QbarC d')
                   (m_QbarD d') (cos v))) as Hcomp.
  apply (derivable_pt_lim_ext _ (getQbar d')) in Hcomp; [|intros z; reflexivity].
  replace (getQ d' v) with
    ((m_QbarA d' + 3 * m_QbarB d' * (cos v * cos v)
      + 5 * m_QbarC d' * (cos v * cos v * (cos v * cos v))
      + 7 * m_QbarD d' * (cos v * cos v * (cos v * cos v) * (cos v * cos v)))
     * - sin v); [exact Hcomp|].
  unfold getQ. cbv zeta. rewrite HQA, HQB, HQC, HA, HB, HC, HD.
  assert (Hc : cos v * cos v = 1 - sin v * sin v).
  { pose proof (sin2_cos2 v) as H. unfold Rsqr in H. lra. }
  rewrite Hc. clearbody e2. field.
Qed.

(** On every object in ellipsoidal mode the series [Q] is the derivative
    of the series [Qbar], at every latitude: the quotient
    [(Qbar(y2) - Qbar(y1)) / (y2 - y1)] of the area kernel is a difference
    quotient of an antiderivative of [Q], which is what its replacement by
    [Q((y1 + y2) / 2)] for nearly equal latitudes relies on. *)
Theorem getQ_is_derivative_of_getQbar :
  forall (collab : Collaborators) (d : QgsDistanceArea) (v : R),
    Reachable d -> willUseEllipsoid d = true ->
    derivable_pt_lim (getQbar d) v (getQ d v).
Proof.
  intros collab d v Hreach Huse.
  assert (Hsome : String.eqb (mEllipsoid d) GEO_NONE = false).
  { unfold willUseEllipsoid in Huse. apply negb_true_iff in Huse. exact Huse. }
  pose proof (computeAreaInit_Qbar_derivative d v Hsome) as H.
  rewrite (Reachable_recomputed d Hreach Huse) in H.
  exact H.
Qed.

Lemma getQ_is_derivative_of_getQbar_witness :
  derivable_pt_lim (getQbar wgs84) 1 (getQ wgs84 1).
Proof.
  exact (getQ_is_derivative_of_getQbar planeCollaborators wgs84 1
           wgs84_reachable wgs84_willUse).
Defined.


(* ================================================================= *)
(** ** Vincenty direct: iteration and refusals *)

Lemma sigmaMoved_false (last_sigma sigma : R) :
  sigmaMoved last_sigma sigma = false ->
  (sigma = 0 /\ last_sigma = 0) \/
  (sigma <> 0 /\ fabs ((last_sigma - sigma) / sigma) <= 1.0e-9).
Proof.
  unfold sigmaMoved.
  destruct (Req_dec_T sigma 0) as [Hzero | Hnonzero].
  - destruct (Req_dec_T last_sigma 0) as [Hlast | _]; [|discriminate].
    intros _. left. split; assumption.
  - intros Htest. apply Rgtb_false in Htest. right. split; assumption.
Qed.

Lemma sigmaLoop_run (body : ProjectState -> ProjectState) :
  (forall s, ps_i (body s) = (ps_i s + 1)%Z) ->
  forall (gas : nat) (s : ProjectState),
    (1 <= gas)%nat -> ps_i s = (999 - Z.of_nat gas)%Z ->
    (ps_i s < ps_i (sigmaLoop gas body s) <= 999)%Z /\
    ((ps_i (sigmaLoop gas body s) < 999)%Z ->
     sigmaMoved (ps_last_sigma (sigmaLoop gas body s))
                (ps_sigma (sigmaLoop gas body s)) = false).
Proof.
  intros Hstep.
  induction gas as [|gas IH]; intros s Hgas Hi; [lia|].
  cbn [sigmaLoop].
  pose proof (Hstep s) as Hs'.
  destruct (ps_i (body s) <? 999)%Z eqn:Hlt; cbn [andb].
  - apply Z.ltb_lt in Hlt.
    destruct (sigmaMoved (ps_last_sigma (body s)) (ps_sigma (body s))) eqn:Hgap.
    + destruct (IH (body s)) as [Hrange Hexit]; [lia | lia |].
      split; [lia | exact Hexit].
    + split; [lia | intros _; exact Hgap].
  - apply Z.ltb_ge in Hlt. split; [lia | lia].
Qed.

Lemma sigmaLoop_unfold (gas : nat) (body : ProjectState -> ProjectState)
    (s : ProjectState) :
  sigmaLoop (S gas) body s
  = (let s' := body s in
     if (ps_i s' <? 999)%Z && sigmaMoved (ps_last_sigma s') (ps_sigma s')
     then sigmaLoop gas body s'
     else s').
Proof. reflexivity. Qed.

(** With [distance] 0 the first run of the body leaves [sigma] and
    [last_sigma] both 0, and the loop is left at once. *)
Lemma sigmaLoop_zero_distance (b A B sigma1 : R) :
  sigmaLoop 999 (projectStep 0 b A B sigma1) (mkProject 0 0 0 0 0)
  = mkProject 0 0 0 (2.0 * sigma1 + 0) 1.
Proof.
  assert (Hbody : projectStep 0 b A B sigma1 (mkProject 0 0 0 0 0)
                  = mkProject 0 0 0 (2.0 * sigma1 + 0) 1).
  { unfold projectStep. cbn [ps_sigma ps_i]. rewrite sin_0.
    f_equal; unfold Rdiv; ring. }
  assert (Hstay : sigmaMoved 0 0 = false).
  { unfold sigmaMoved. destruct (Req_dec_T 0 0) as [_ | Hne]; [reflexivity|].
    contradiction. }
  change 999%nat with (S 998).
  rewrite sigmaLoop_unfold. cbv zeta. rewrite Hbody.
  cbn [ps_i ps_sigma ps_last_sigma].
  rewrite Hstay, andb_false_r. reflexivity.
Qed.

(** The [do ... while] of [computeSpheroidProject] runs its body at least
    once and at most 999 times.  With [b * A], the divisor of [distance],
    other than 0: when the loop stops short of 999 runs, either the last
    relative change of [sigma] is within 1e-9, or [sigma] and
    [last_sigma] are both exactly 0 and the test compared a quotient that
    is not a number; the second is what happens for [distance] 0, after
    one run. *)
Theorem computeSpheroidProject_iteration_cap :
  forall (distance b A B sigma1 sigma0 : R),
    let r := sigmaLoop 999 (projectStep distance b A B sigma1)
                       (mkProject sigma0 0 0 0 0) in
    (1 <= ps_i r <= 999)%Z /\
    (b * A <> 0 ->
     ((ps_i r < 999)%Z ->
      (ps_sigma r = 0 /\ ps_last_sigma r = 0) \/
      (ps_sigma r <> 0 /\
       fabs ((ps_last_sigma r - ps_sigma r) / ps_sigma r) <= 1.0e-9)) /\
     (distance = 0 -> sigma0 = 0 ->
      ps_i r = 1%Z /\ ps_sigma r = 0 /\ ps_last_sigma r = 0)).
Proof.
  intros distance b A B sigma1 sigma0 r. subst r.
  destruct (sigmaLoop_run (projectStep distance b A B sigma1)
              (fun s => eq_refl) 999 (mkProject sigma0 0 0 0 0))
    as [Hrange Hexit]; [lia | reflexivity |].
  cbn [ps_i] in Hrange. split; [lia|].
  intros _. split.
  - intros Hshort. apply sigmaMoved_false. exact (Hexit Hshort).
  - intros -> ->. rewrite sigmaLoop_zero_distance. repeat split; reflexivity.
Qed.

(** The refusal of [computeSpheroidProject], by its test as written. *)
Lemma computeSpheroidProject_refused (d : QgsDistanceArea) (p1 : QgsPointXY)
    (distance azimuth : R) :
  (Rltb (mSemiMajor d) 0 && Rltb (mSemiMinor d) 0)
  || (Rltb (px p1) (-180.0) || Rgtb (px p1) 180.0
      || Rltb (py p1) (-85.05115) || Rgtb (py p1) 85.05115) = true ->
  computeSpheroidProject d p1 distance azimuth = mkPointXY 0 0.
Proof.
  intros Hguard. unfold computeSpheroidProject. cbv zeta.
  rewrite Hguard. reflexivity.
Qed.

(** On a geographic source CRS with an ellipsoid, [measureLineProjected]
    does not report a refused projection (both axes negative, or the start
    point outside [|lon| <= 180], [|lat| <= 85.05115]): it stores the point
    (0, 0) and returns the distance from the start point to (0, 0). *)
Theorem measureLineProjected_refused_projection :
  forall (collab : Collaborators) (d : QgsDistanceArea) (p1 : QgsPointXY)
         (distance azimuth : R),
    isGeographic (mSourceCrs d) && willUseEllipsoid d = true ->
    (mSemiMajor d < 0 /\ mSemiMinor d < 0)
    \/ Rabs (px p1) > 180 \/ Rabs (py p1) > 85.05115 ->
    measureLineProjected d p1 distance azimuth
    = (QgsPointXY_distance p1 (mkPointXY 0 0), mkPointXY 0 0).
Proof.
  intros collab d p1 distance azimuth Hgeo Hout.
  unfold measureLineProjected. rewrite Hgeo.
  rewrite computeSpheroidProject_refused; [reflexivity|].
  destruct Hout as [[Ha Hb] | [Hx | Hy]].
  - apply Rltb_true in Ha, Hb. rewrite Ha, Hb. reflexivity.
  - apply orb_true_iff. right.
    apply (fabs_gt_iff (px p1) 180) in Hx. destruct Hx as [Hx | Hx].
    + assert (Hc : Rltb (px p1) (-180.0) = true) by (apply Rltb_true; lra).
      rewrite Hc. reflexivity.
    + assert (Hc : Rgtb (px p1) 180.0 = true) by (apply Rgtb_true; lra).
      rewrite Hc, orb_true_r. reflexivity.
  - apply orb_true_iff. right.
    apply (fabs_gt_iff (py p1) 85.05115) in Hy. destruct Hy as [Hy | Hy].
    + assert (Hc : Rltb (py p1) (-85.05115) = true) by (apply Rltb_true; lra).
      rewrite Hc, orb_true_r. reflexivity.
    + assert (Hc : Rgtb (py p1) 85.05115 = true) by (apply Rgtb_true; lra).
      rewrite Hc, orb_true_r. reflexivity.
Qed.

Lemma measureLineProjected_refused_projection_witness :
  measureLineProjected (collab := planeCollaborators)
    wgs84 (mkPointXY 10 89) 1000 0
  = (euclideanDistance (mkPointXY 10 89) (mkPointXY 0 0), mkPointXY 0 0).
Proof.
  apply (measureLineProjected_refused_projection planeCollaborators
           wgs84 (mkPointXY 10 89) 1000 0).
  - reflexivity.
  - right. right. cbn [py]. rewrite Rabs_right; lra.
Defined.

(** [computeSpheroidProject] brings the azimuth back by one turn only: an
    azimuth in [[-2 pi, 0)] gives the same point as the azimuth one turn
    further, and one in [(2 pi, 4 pi]] the same as the azimuth one turn
    back. *)
Theorem computeSpheroidProject_azimuth_turn :
  forall (d : QgsDistanceArea) (p1 : QgsPointXY) (distance azimuth : R),
    (- (M_PI * 2.0) <= azimuth < 0 ->
     computeSpheroidProject d p1 distance azimuth
     = computeSpheroidProject d p1 distance (azimuth + M_PI * 2.0)) /\
    (M_PI * 2.0 < azimuth <= M_PI * 2.0 + M_PI * 2.0 ->
     computeSpheroidProject d p1 distance azimuth
     = computeSpheroidProject d p1 distance (azimuth - M_PI * 2.0)).
Proof.
  intros d p1 distance azimuth.
  pose proof M_PI_pos as Hpi.
  split; intros Haz.
  - assert (H1 : Rltb azimuth 0.0 = true) by (apply Rltb_true; lra).
    assert (H2 : Rgtb (azimuth + M_PI * 2.0) (M_PI * 2.0) = false)
      by (apply Rgtb_false; lra).
    assert (H3 : Rltb (azimuth + M_PI * 2.0) 0.0 = false)
      by (apply Rltb_false; lra).
    unfold computeSpheroidProject. cbv zeta.
    rewrite H1, H3, H2. reflexivity.
  - assert (H1 : Rltb azimuth 0.0 = false) by (apply Rltb_false; lra).
    assert (H2 : Rgtb azimuth (M_PI * 2.0) = true) by (apply Rgtb_true; lra).
    assert (H3 : Rltb (azimuth - M_PI * 2.0) 0.0 = false)
      by (apply Rltb_false; lra).
    assert (H4 : Rgtb (azimuth - M_PI * 2.0) (M_PI * 2.0) = false)
      by (apply Rgtb_false; lra).
    unfold computeSpheroidProject. cbv zeta.
    rewrite H1, H2, H3, H4. reflexivity.
Qed.

Lemma computeSpheroidProject_azimuth_turn_witness :
  computeSpheroidProject wgs84 (mkPointXY 10 45) 1000 (-1)
  = computeSpheroidProject wgs84 (mkPointXY 10 45) 1000 (-1 + M_PI * 2.0).
Proof.
  apply (proj1 (computeSpheroidProject_azimuth_turn wgs84 (mkPointXY 10 45) 1000 (-1))).
  pose proof PI2_3_2. unfold M_PI. lra.
Defined.

(* ================================================================= *)
(** ** Bearing *)

Lemma atan2_range (y x : R) : - PI < atan2 y x <= PI.
Proof.
  pose proof PI_RGT_0 as Hpi.
  pose proof (atan_bound (y / x)) as Hb.
  unfold atan2.
  destruct (Rgtb x 0) eqn:Hx; [lra|].
  apply Rgtb_false in Hx.
  destruct (Rltb x 0) eqn:Hx'.
  - apply Rltb_true in Hx'.
    assert (Hinv : / x < 0) by (apply Rinv_lt_0_compat; exact Hx').
    destruct (Rgeb y 0) eqn:Hy.
    + apply Rgeb_true in Hy.
      assert (Hq : y / x <= 0) by (unfold Rdiv; nra).
      assert (Hat : atan (y / x) <= 0).
      { destruct Hq as [Hq | Hq].
        - apply atan_increasing in Hq. rewrite atan_0 in Hq. lra.
        - rewrite Hq, atan_0. lra. }
      lra.
    + apply Rgeb_false in Hy.
      assert (Hq : 0 < y / x) by (unfold Rdiv; nra).
      apply atan_increasing in Hq. rewrite atan_0 in Hq. lra.
  - destruct (Rgtb y 0); [lra|].
    destruct (Rltb y 0); lra.
Qed.

(** Without an ellipsoid [bearing] is the planar azimuth
    [atan2( dx, dy )]: it never touches the coordinate transform, always
    has a value, the value lies in [(-pi, pi]], and from a point to itself
    it is 0. *)
Theorem bearing_planar :
  forall (collab : Collaborators) (d : QgsDistanceArea) (p1 p2 : QgsPointXY),
    willUseEllipsoid d = false ->
    exists b,
      bearing d p1 p2 = ([], Some (Some b)) /\
      - M_PI < b <= M_PI /\
      (p1 = p2 -> b = 0).
Proof.
  intros collab d p1 p2 Hplanar.
  exists (atan2 (px p2 - px p1) (py p2 - py p1)).
  unfold bearing. rewrite Hplanar.
  split; [reflexivity|].
  split; [apply atan2_range|].
  intros ->. unfold atan2.
  replace (px p2 - px p2) with 0 by lra.
  replace (py p2 - py p2) with 0 by lra.
  repeat cmp_case; lra.
Qed.

Lemma bearing_planar_witness :
  exists b,
    bearing (collab := planeCollaborators) QgsDistanceArea_new
      (mkPointXY 0 0) (mkPointXY 1 1) = ([], Some (Some b)) /\
    - M_PI < b <= M_PI /\
    (mkPointXY 0 0 = mkPointXY 1 1 -> b = 0).
Proof.
  apply (bearing_planar planeCollaborators QgsDistanceArea_new
           (mkPointXY 0 0) (mkPointXY 1 1)).
  reflexivity.
Defined.

(** In ellipsoidal mode a failing coordinate transform makes [bearing]
    throw, where [measureLine] on the same two points catches the exception
    and returns 0. *)
Theorem bearing_propagates_transform_failure :
  forall (collab : Collaborators) (d : QgsDistanceArea) (p1 p2 : QgsPointXY),
    willUseEllipsoid d = true ->
    transform p1 = None \/ transform p2 = None ->
    returned (bearing d p1 p2) = None /\
    returned (measureLine_p1p2 d p1 p2) = Some 0.0.
Proof.
  intros collab d p1 p2 Huse Hfail.
  unfold bearing, measureLine_p1p2, callTransform. rewrite Huse.
  destruct (transform p1) as [q1|] eqn:H1.
  - destruct Hfail as [Hfail | Hfail]; [discriminate|].
    cbn. rewrite Hfail. split; reflexivity.
  - split; reflexivity.
Qed.

(** In ellipsoidal mode, when the two transformed points coincide for
    [qgsDoubleNear], [computeDistanceBearing] returns before storing the
    course: [bearing] returns its local variable uninitialised, while
    [measureLine] returns 0. *)
Theorem bearing_coincident_points :
  forall (collab : Collaborators) (d : QgsDistanceArea) (p1 p2 q1 q2 : QgsPointXY),
    willUseEllipsoid d = true ->
    transform p1 = Some q1 -> transform p2 = Some q2 ->
    qgsDoubleNear (px q1) (px q2) && qgsDoubleNear (py q1) (py q2) = true ->
    returned (bearing d p1 p2) = Some None /\
    returned (measureLine_p1p2 d p1 p2) = Some 0.
Proof.
  intros collab d p1 p2 q1 q2 Huse H1 H2 Hnear.
  unfold bearing, measureLine_p1p2, callTransform. rewrite Huse.
  cbn. rewrite H1. cbn. rewrite H2. cbn.
  unfold computeDistanceBearing. rewrite Hnear.
  split; reflexivity.
Qed.

Lemma boundedTransform_in_range (p : QgsPointXY) :
  Rabs (py p) <= 90 -> boundedTransform p = Some p.
Proof.
  intros H. unfold boundedTransform.
  assert (Hc : Rgtb (Rabs (py p)) 90 = false) by (apply Rgtb_false; exact H).
  rewrite Hc. reflexivity.
Qed.

Lemma boundedTransform_out_of_range (p : QgsPointXY) :
  Rabs (py p) > 90 -> boundedTransform p = None.
Proof.
  intros H. unfold boundedTransform.
  assert (Hc : Rgtb (Rabs (py p)) 90 = true) by (apply Rgtb_true; exact H).
  rewrite Hc. reflexivity.
Qed.

Lemma nearWithin_refl (epsilon v : R) : 0 < epsilon -> nearWithin epsilon v v = true.
Proof.
  intros He. unfold nearWithin.
  assert (H1 : Rgtb (v - v) (- epsilon) = true) by (apply Rgtb_true; lra).
  assert (H2 : Rleb (v - v) epsilon = true) by (apply Rleb_true; lra).
  rewrite H1, H2. reflexivity.
Qed.

Lemma bearing_propagates_transform_failure_witness :
  returned (bearing (collab := boundedCollaborators) wgs84
              (mkPointXY 0 0) (mkPointXY 0 100)) = None /\
  returned (measureLine_p1p2 (collab := boundedCollaborators) wgs84
              (mkPointXY 0 0) (mkPointXY 0 100)) = Some 0.0.
Proof.
  apply (bearing_propagates_transform_failure boundedCollaborators wgs84
           (mkPointXY 0 0) (mkPointXY 0 100)).
  - exact wgs84_willUse.
  - right. apply boundedTransform_out_of_range. cbn [py]. rewrite Rabs_right; lra.
Defined.

Lemma bearing_coincident_points_witness :
  returned (bearing (collab := planeCollaborators) wgs84
              (mkPointXY 1 2) (mkPointXY 1 2)) = Some None /\
  returned (measureLine_p1p2 (collab := planeCollaborators) wgs84
              (mkPointXY 1 2) (mkPointXY 1 2)) = Some 0.
Proof.
  apply (bearing_coincident_points planeCollaborators wgs84
           (mkPointXY 1 2) (mkPointXY 1 2) (mkPointXY 1 2) (mkPointXY 1 2)).
  - exact wgs84_willUse.
  - reflexivity.
  - reflexivity.
  - cbn [px py qgsDoubleNear planeCollaborators].
    rewrite !nearWithin_refl by lra. reflexivity.
Defined.

(* ================================================================= *)
(** ** Measuring lines: transform failures, calls, additivity *)

Lemma last_nonempty_default {A : Type} (l : list A) (a dflt dflt' : A) :
  last (a :: l) dflt = last (a :: l) dflt'.
Proof.
  revert a. induction l as [|b l IH]; intros a; [reflexivity|].
  change (last (b :: l) dflt = last (b :: l) dflt'). apply IH.
Qed.

Section LineFacts.
Context {collab : Collaborators}.

Lemma measureLine_loop_failure (d : QgsDistanceArea) :
  willUseEllipsoid d = true ->
  forall (points : list QgsPointXY) (p1 : QgsPointXY) (total : R),
    (exists p, In p points /\ transform p = None) ->
    snd (measureLine_loop d points p1 total) = None.
Proof.
  intros Huse. induction points as [|i points IH]; intros p1 total (p & Hin & Hp).
  - contradiction.
  - cbn [measureLine_loop]. rewrite Huse. unfold bind, callTransform.
    destruct (transform i) as [p2|] eqn:Hi; [|reflexivity].
    destruct Hin as [-> | Hin]; [congruence|].
    specialize (IH p2 (total + fst (computeDistanceBearing d p1 p2))
                   (ex_intro _ p (conj Hin Hp))).
    destruct (measureLine_loop d points p2
                (total + fst (computeDistanceBearing d p1 p2))) as [calls r].
    cbn [snd] in *. subst r. reflexivity.
Qed.

Lemma measureLine_loop_calls (d : QgsDistanceArea) :
  willUseEllipsoid d = true ->
  forall (points : list QgsPointXY) (p1 : QgsPointXY) (total : R),
    (forall p, In p points -> transform p <> None) ->
    fst (measureLine_loop d points p1 total) = points /\
    snd (measureLine_loop d points p1 total) <> None.
Proof.
  intros Huse. induction points as [|i points IH]; intros p1 total Hok.
  - cbn. split; [reflexivity | discriminate].
  - cbn [measureLine_loop]. rewrite Huse. unfold bind, callTransform.
    destruct (transform i) as [p2|] eqn:Hi.
    + destruct (IH p2 (total + fst (computeDistanceBearing d p1 p2)))
        as [Hcalls Hval].
      { intros p Hp. apply Hok. right. exact Hp. }
      destruct (measureLine_loop d points p2
                  (total + fst (computeDistanceBearing d p1 p2))) as [calls r].
      cbn [fst snd] in *. subst calls. split; [reflexivity | exact Hval].
    + exfalso. apply (Hok i); [left; reflexivity | exact Hi].
Qed.

Lemma measureLine_p1p2_planar (d : QgsDistanceArea) (p1 p2 : QgsPointXY) :
  willUseEllipsoid d = false ->
  measureLine_p1p2 d p1 p2 = ([], Some (QgsPointXY_distance p2 p1)).
Proof. intros Hplanar. unfold measureLine_p1p2. rewrite Hplanar. reflexivity. Qed.

(** Without an ellipsoid the loop visits the points without a transform
    call, and visiting [points ++ [q]] is visiting [points] and then going
    to [q] from where that ended. *)
Lemma measureLine_loop_planar (d : QgsDistanceArea) :
  willUseEllipsoid d = false ->
  forall (points : list QgsPointXY) (p1 : QgsPointXY) (total : R),
  exists t,
    measureLine_loop d points p1 total = ([], Some t) /\
    forall q,
      measureLine_loop d (points ++ [q]) p1 total
      = ([], Some (t + QgsPointXY_distance q (last points p1))).
Proof.
  intros Hplanar. induction points as [|i points IH]; intros p1 total.
  - exists total. split; [reflexivity|].
    intros q. cbn [app measureLine_loop last]. rewrite Hplanar.
    rewrite measureLine_p1p2_planar by exact Hplanar. reflexivity.
  - destruct (IH i (total + QgsPointXY_distance i p1)) as (t & Hrun & Happ).
    exists t. split.
    + cbn [measureLine_loop]. rewrite Hplanar.
      rewrite measureLine_p1p2_planar by exact Hplanar.
      cbn [bind]. rewrite Hrun. reflexivity.
    + intros q. cbn [app measureLine_loop]. rewrite Hplanar.
      rewrite measureLine_p1p2_planar by exact Hplanar.
      cbn [bind]. rewrite Happ. cbn [app].
      destruct points as [|q0 points]; [reflexivity|].
      change (last (i :: q0 :: points) p1) with (last (q0 :: points) p1).
      rewrite (last_nonempty_default points q0 i p1). reflexivity.
Qed.

End LineFacts.

(** In ellipsoidal mode, a vector of two or more points with one point the
    coordinate transform throws on measures 0: the exception is caught and
    not passed on. *)
Theorem measureLine_points_transform_failure :
  forall (collab : Collaborators) (d : QgsDistanceArea) (points : list QgsPointXY),
    willUseEllipsoid d = true ->
    (2 <= List.length points)%nat ->
    (exists p, In p points /\ transform p = None) ->
    returned (measureLine_points d points) = Some 0.0.
Proof.
  intros collab d points Huse Hlen Hfail.
  unfold measureLine_points, returned.
  assert (Hlt : (List.length points <? 2)%nat = false) by (apply Nat.ltb_ge; lia).
  rewrite Hlt, Huse. unfold bind, callTransform.
  destruct (transform (nth 0 points QgsPointXY_default)) as [p1|]; [|reflexivity].
  pose proof (measureLine_loop_failure d Huse points p1 0 Hfail) as Hloop.
  destruct (measureLine_loop d points p1 0) as [calls r].
  cbn [snd] in Hloop. subst r. reflexivity.
Qed.

Lemma measureLine_points_transform_failure_witness :
  returned (measureLine_points (collab := boundedCollaborators) wgs84
              [mkPointXY 0 0; mkPointXY 0 100]) = Some 0.0.
Proof.
  apply (measureLine_points_transform_failure boundedCollaborators wgs84
           [mkPointXY 0 0; mkPointXY 0 100]).
  - exact wgs84_willUse.
  - cbn. lia.
  - exists (mkPointXY 0 100). split; [right; left; reflexivity|].
    apply boundedTransform_out_of_range. cbn [py]. rewrite Rabs_right; lra.
Defined.

(** In ellipsoidal mode, when no transform throws, measuring a vector of
    two or more points hands the first point to the transform twice and
    every other point once, in order; without an ellipsoid the transform
    is never called. *)
Theorem measureLine_points_transform_calls :
  forall (collab : Collaborators) (d : QgsDistanceArea) (points : list QgsPointXY),
    (2 <= List.length points)%nat ->
    (willUseEllipsoid d = true ->
     (forall p, In p points -> transform p <> None) ->
     transformCalls (measureLine_points d points)
     = nth 0 points QgsPointXY_default :: points) /\
    (willUseEllipsoid d = false ->
     transformCalls (measureLine_points d points) = []).
Proof.
  intros collab d points Hlen.
  assert (Hlt : (List.length points <? 2)%nat = false) by (apply Nat.ltb_ge; lia).
  unfold measureLine_points, transformCalls. rewrite Hlt.
  split.
  - intros Huse Hok. rewrite Huse. unfold bind, callTransform.
    destruct (transform (nth 0 points QgsPointXY_default)) as [p1|] eqn:H0.
    + destruct (measureLine_loop_calls d Huse points p1 0 Hok) as [Hcalls Hval].
      destruct (measureLine_loop d points p1 0) as [calls [r|]];
        cbn [fst snd] in *; [subst calls; reflexivity | contradiction].
    + exfalso. apply (Hok (nth 0 points QgsPointXY_default)); [|exact H0].
      apply nth_In. lia.
  - intros Hplanar. rewrite Hplanar.
    destruct (measureLine_loop_planar d Hplanar points
                (nth 0 points QgsPointXY_default) 0) as (t & Hrun & _).
    cbn [bind ret]. rewrite Hrun. reflexivity.
Qed.

Lemma measureLine_points_transform_calls_witness :
  transformCalls (measureLine_points (collab := planeCollaborators) wgs84
                    [mkPointXY 0 0; mkPointXY 0 1])
  = [mkPointXY 0 0; mkPointXY 0 0; mkPointXY 0 1].
Proof.
  apply (proj1 (measureLine_points_transform_calls planeCollaborators wgs84
                  [mkPointXY 0 0; mkPointXY 0 1] ltac:(cbn; lia))).
  - exact wgs84_willUse.
  - intros p _. discriminate.
Defined.

(** Without an ellipsoid, the length of a polyline of two or more points
    grows, when a point [q] is appended, by the planar distance from the
    last point to [q]. *)
Theorem measureLine_points_planar_append :
  forall (collab : Collaborators) (d : QgsDistanceArea) (points : list QgsPointXY)
         (q : QgsPointXY),
    willUseEllipsoid d = false ->
    (2 <= List.length points)%nat ->
    exists t,
      returned (measureLine_points d points) = Some t /\
      returned (measureLine_points d (points ++ [q]))
      = Some (t + QgsPointXY_distance q (last points QgsPointXY_default)).
Proof.
  intros collab d points q Hplanar Hlen.
  assert (Hlt : (List.length points <? 2)%nat = false) by (apply Nat.ltb_ge; lia).
  assert (Hlt' : (List.length (points ++ [q]) <? 2)%nat = false).
  { apply Nat.ltb_ge. rewrite length_app. cbn. lia. }
  destruct points as [|p0 points]; [cbn in Hlen; lia|].
  destruct (measureLine_loop_planar d Hplanar (p0 :: points) p0 0) as (t & Hrun & Happ).
  exists t.
  unfold measureLine_points, returned. rewrite Hlt, Hlt', Hplanar.
  cbn [app nth bind ret].
  change (p0 :: points ++ [q]) with ((p0 :: points) ++ [q]).
  rewrite Hrun, Happ. cbn [tryCatch snd app].
  split; [reflexivity|].
  rewrite (last_nonempty_default points p0 p0 QgsPointXY_default). reflexivity.
Qed.

Lemma measureLine_points_planar_append_witness :
  exists t,
    returned (measureLine_points (collab := planeCollaborators) QgsDistanceArea_new
                [mkPointXY 0 0; mkPointXY 1 0]) = Some t /\
    returned (measureLine_points (collab := planeCollaborators) QgsDistanceArea_new
                ([mkPointXY 0 0; mkPointXY 1 0] ++ [mkPointXY 1 1]))
    = Some (t + euclideanDistance (mkPointXY 1 1)
                  (last [mkPointXY 0 0; mkPointXY 1 0] QgsPointXY_default)).
Proof.
  apply (measureLine_points_planar_append planeCollaborators QgsDistanceArea_new
           [mkPointXY 0 0; mkPointXY 1 0] (mkPointXY 1 1)).
  - reflexivity.
  - cbn. lia.
Defined.

(* ================================================================= *)
(** ** Measuring polygons *)

Lemma polarEnclosureCorrection_at_most_half (Eref area : R) :
  polarEnclosureCorrection Eref area <= Eref / 2.
Proof.
  unfold polarEnclosureCorrection. repeat cmp_case; lra.
Qed.

Lemma computePolygonFlatArea_nonneg (points : list QgsPointXY) :
  0 <= computePolygonFlatArea points.
Proof. unfold computePolygonFlatArea, fabs. apply Rabs_pos. Qed.

Section PolygonFacts.
Context {collab : Collaborators}.

(** Whatever the mode, a returned area lies between 0 and, in ellipsoidal
    mode, half the reference area. *)
Lemma computePolygonArea_bounds (fuel : nat) (d : QgsDistanceArea)
    (points : list QgsPointXY) (area : R) :
  Reachable d ->
  computePolygonArea fuel d points = Some area ->
  0 <= area /\ (willUseEllipsoid d = true -> area <= m_E d / 2).
Proof.
  intros Hreach Hrun.
  destruct (willUseEllipsoid d) eqn:Huse.
  - destruct (Reachable_constants d Hreach Huse) as [_ HE].
    destruct points as [|p points].
    + cbn in Hrun. injection Hrun as <-. split; [lra | intros _; lra].
    + rewrite (computePolygonArea_ellipsoidal fuel d (p :: points) Huse) in Hrun
        by discriminate.
      destruct (edgeSum fuel d (p :: points)) as [sum|]; [|discriminate].
      cbn [option_map] in Hrun. injection Hrun as <-.
      unfold spec_ellipsoidalArea. split.
      * apply polarEnclosureCorrection_nonneg; [exact HE | apply Rabs_pos].
      * intros _. apply polarEnclosureCorrection_at_most_half.
  - split; [|discriminate].
    unfold computePolygonArea in Hrun. rewrite Huse in Hrun. cbn [negb] in Hrun.
    destruct points as [|p points]; injection Hrun as <-;
      [lra | apply computePolygonFlatArea_nonneg].
Qed.

(** The function returns: without an ellipsoid always, with one when the
    longitudes are within [longitudeLimit]. *)
Lemma computePolygonArea_terminates (d : QgsDistanceArea) (points : list QgsPointXY) :
  Reachable d ->
  (willUseEllipsoid d = true ->
   forall p, In p points -> Rabs (px p) <= longitudeLimit) ->
  exists fuel area, computePolygonArea fuel d points = Some area.
Proof.
  intros Hreach Hlon.
  destruct points as [|p points]; [exists 0%nat, 0; reflexivity|].
  destruct (willUseEllipsoid d) eqn:Huse.
  - destruct (edgeSum_terminates d (p :: points) Hreach Huse (Hlon eq_refl))
      as (fuel & sum & Hsum).
    exists fuel.
    rewrite (computePolygonArea_ellipsoidal fuel d (p :: points) Huse) by discriminate.
    rewrite Hsum. eexists; reflexivity.
  - exists 0%nat. unfold computePolygonArea. rewrite Huse. eexists; reflexivity.
Qed.

Lemma transformAll_first_failure :
  forall (pre post : list QgsPointXY) (p : QgsPointXY),
    (forall q, In q pre -> transform q <> None) ->
    transform p = None ->
    transformAll (pre ++ p :: post) = (pre ++ [p], None).
Proof.
  induction pre as [|q pre IH]; intros post p Hok Hp.
  - cbn [app transformAll]. unfold bind, callTransform. rewrite Hp. reflexivity.
  - cbn [app transformAll]. unfold bind, callTransform.
    destruct (transform q) as [q'|] eqn:Hq.
    + fold (@bind (list QgsPointXY) (list QgsPointXY)).
      rewrite (IH post p); [reflexivity | | exact Hp].
      intros r Hr. apply Hok. right. exact Hr.
    + exfalso. apply (Hok q); [left; reflexivity | exact Hq].
Qed.

(** What [transformAll] returns are the images of the points it was
    given. *)
Lemma transformAll_images :
  forall (points calls pts : list QgsPointXY),
    transformAll points = (calls, Some pts) ->
    forall q, In q pts -> exists p, In p points /\ transform p = Some q.
Proof.
  induction points as [|i points IH]; intros calls pts Hall q Hq.
  - cbn in Hall. injection Hall as _ <-. destruct Hq.
  - cbn [transformAll] in Hall. unfold bind, callTransform in Hall.
    destruct (transform i) as [i'|] eqn:Hi; [|discriminate].
    fold (@bind (list QgsPointXY) (list QgsPointXY)) in Hall.
    destruct (transformAll points) as [calls' [pts'|]] eqn:Hrest;
      cbn in Hall; [|discriminate].
    injection Hall as _ <-.
    destruct Hq as [<- | Hq].
    + exists i. split; [left; reflexivity | exact Hi].
    + destruct (IH calls' pts' eq_refl q Hq) as (p & Hp & Hpq).
      exists p. split; [right; exact Hp | exact Hpq].
Qed.

End PolygonFacts.

(** On a reachable object, with or without an ellipsoid, [measurePolygon]
    never throws, and the value it returns is never negative; it returns
    whenever the vertices, once transformed, have longitudes within
    [longitudeLimit] degrees.  In ellipsoidal mode the semi-major axis is
    taken other than 0: with 0 the area constants of the source are not
    numbers. *)
Theorem measurePolygon_points_nonneg :
  forall (collab : Collaborators) (d : QgsDistanceArea) (points : list QgsPointXY),
    Reachable d ->
    (willUseEllipsoid d = true -> mSemiMajor d <> 0) ->
    ((willUseEllipsoid d = true ->
      forall p q, In p points -> transform p = Some q ->
                  Rabs (px q) <= longitudeLimit) ->
     exists fuel area,
       returned (measurePolygon_points fuel d points) = Some (Some area)) /\
    (forall fuel, returned (measurePolygon_points fuel d points) <> None) /\
    (forall fuel area,
        returned (measurePolygon_points fuel d points) = Some (Some area) -> 0 <= area).
Proof.
  intros collab d points Hreach _.
  unfold measurePolygon_points, returned.
  destruct (willUseEllipsoid d) eqn:Huse.
  - destruct (transformAll points) as [calls [pts|]] eqn:Hall; cbn [bind ret tryCatch snd].
    + split; [|split].
      * intros Hlon.
        destruct (computePolygonArea_terminates d pts Hreach) as (fuel & area & Hrun).
        { intros _ q Hq.
          destruct (transformAll_images points calls pts Hall q Hq) as (p & Hp & Hpq).
          apply (Hlon eq_refl p q Hp Hpq). }
        exists fuel, area. rewrite Hrun. reflexivity.
      * intros fuel'. destruct (computePolygonArea fuel' d pts); discriminate.
      * intros fuel' area' Heq.
        destruct (computePolygonArea fuel' d pts) as [a|] eqn:Hrun'; [|discriminate].
        cbn in Heq. injection Heq as <-.
        apply (computePolygonArea_bounds fuel' d pts a Hreach Hrun').
    + split; [intros _; exists 0%nat, 0.0; reflexivity|].
      split; [discriminate|].
      intros _ area Heq. injection Heq as <-. lra.
  - cbn [ret tryCatch snd].
    split; [|split].
    + intros _.
      destruct (computePolygonArea_terminates d points Hreach) as (fuel & area & Hrun);
        [rewrite Huse; discriminate|].
      exists fuel, area. rewrite Hrun. reflexivity.
    + discriminate.
    + intros fuel' area' Heq. injection Heq as Heq.
      apply (computePolygonArea_bounds fuel' d points area' Hreach Heq).
Qed.

Lemma measurePolygon_points_nonneg_witness :
  (exists fuel area,
      returned (measurePolygon_points (collab := planeCollaborators) fuel wgs84
                  [mkPointXY 0 0; mkPointXY 1 0; mkPointXY 0 1]) = Some (Some area)) /\
  (forall fuel,
      returned (measurePolygon_points (collab := planeCollaborators) fuel wgs84
                  [mkPointXY 0 0; mkPointXY 1 0; mkPointXY 0 1]) <> None) /\
  (forall fuel area,
      returned (measurePolygon_points (collab := planeCollaborators) fuel wgs84
                  [mkPointXY 0 0; mkPointXY 1 0; mkPointXY 0 1]) = Some (Some area) ->
      0 <= area).
Proof.
  destruct (measurePolygon_points_nonneg planeCollaborators wgs84
              [mkPointXY 0 0; mkPointXY 1 0; mkPointXY 0 1] wgs84_reachable
              (fun _ => wgs84_semiMajor)) as [Hends Hrest].
  split; [|exact Hrest].
  apply Hends. intros _ p q Hp Hpq.
  cbn [transform planeCollaborators] in Hpq. injection Hpq as <-.
  apply triangle_within_limit. exact Hp.
Defined.

(** In ellipsoidal mode [measurePolygon] transforms the vertices in order
    and stops at the first one the transform throws on: the vertices after
    it are never transformed, and the area returned is 0. *)
Theorem measurePolygon_points_first_failure :
  forall (collab : Collaborators) (fuel : nat) (d : QgsDistanceArea)
         (pre post : list QgsPointXY) (p : QgsPointXY),
    willUseEllipsoid d = true ->
    (forall q, In q pre -> transform q <> None) ->
    transform p = None ->
    measurePolygon_points fuel d (pre ++ p :: post) = (pre ++ [p], Some (Some 0.0)).
Proof.
  intros collab fuel d pre post p Huse Hok Hp.
  unfold measurePolygon_points. rewrite Huse.
  unfold bind. rewrite (transformAll_first_failure pre post p Hok Hp).
  reflexivity.
Qed.

Lemma measurePolygon_points_first_failure_witness :
  measurePolygon_points (collab := boundedCollaborators) 5 wgs84
    ([mkPointXY 0 0] ++ mkPointXY 0 100 :: [mkPointXY 1 1])
  = ([mkPointXY 0 0] ++ [mkPointXY 0 100], Some (Some 0.0)).
Proof.
  apply (measurePolygon_points_first_failure boundedCollaborators
           5 wgs84 [mkPointXY 0 0] [mkPointXY 1 1]
           (mkPointXY 0 100)).
  - exact wgs84_willUse.
  - intros q [<- | []]. cbn [transform boundedCollaborators].
    rewrite boundedTransform_in_range; [discriminate|].
    cbn [py]. rewrite Rabs_R0. lra.
  - apply boundedTransform_out_of_range. cbn [py]. rewrite Rabs_right; lra.
Defined.

(** In ellipsoidal mode with a semi-major axis other than 0, the area
    returned never exceeds half the reference area [E]: a ring that
    encloses more than half of the ellipsoid is measured as its
    complement.  An area is returned whenever the longitudes are within
    [longitudeLimit] degrees. *)
Theorem computePolygonArea_at_most_half_reference :
  forall (collab : Collaborators) (d : QgsDistanceArea) (points : list QgsPointXY),
    Reachable d -> willUseEllipsoid d = true ->
    mSemiMajor d <> 0 ->
    ((forall p, In p points -> Rabs (px p) <= longitudeLimit) ->
     exists fuel area, computePolygonArea fuel d points = Some area) /\
    (forall fuel area,
        computePolygonArea fuel d points = Some area -> area <= m_E d / 2).
Proof.
  intros collab d points Hreach Huse _. split.
  - intros Hlon. apply computePolygonArea_terminates; [exact Hreach|].
    intros _. exact Hlon.
  - intros fuel area Hrun.
    apply (computePolygonArea_bounds fuel d points area Hreach Hrun). exact Huse.
Qed.

Lemma computePolygonArea_at_most_half_reference_witness :
  (exists fuel area,
      computePolygonArea fuel wgs84 [mkPointXY 0 0; mkPointXY 1 0; mkPointXY 0 1]
      = Some area) /\
  (forall fuel area,
      computePolygonArea fuel wgs84 [mkPointXY 0 0; mkPointXY 1 0; mkPointXY 0 1]
      = Some area -> area <= m_E wgs84 / 2).
Proof.
  destruct (computePolygonArea_at_most_half_reference planeCollaborators wgs84
              [mkPointXY 0 0; mkPointXY 1 0; mkPointXY 0 1]
              wgs84_reachable wgs84_willUse wgs84_semiMajor) as [Hends Hhalf].
  split; [apply Hends; exact triangle_within_limit | exact Hhalf].
Defined.

(** Without an ellipsoid, a ring of one or two vertices has area 0. *)
Theorem computePolygonArea_planar_degenerate :
  forall (fuel : nat) (d : QgsDistanceArea) (points : list QgsPointXY),
    willUseEllipsoid d = false ->
    (List.length points <= 2)%nat ->
    computePolygonArea fuel d points = Some 0.
Proof.
  intros fuel d points Hplanar Hlen.
  destruct points as [|p [|q [|r points]]]; [reflexivity | | | cbn in Hlen; lia];
    unfold computePolygonArea; rewrite Hplanar; cbn [negb];
    rewrite computePolygonFlatArea_shoelace;
    unfold spec_planarArea, shoelaceSum, cyclicSuccessors, sumR; cbn.
  - replace (px p * py p - px p * py p + 0) with 0 by ring.
    rewrite Rabs_R0. f_equal. lra.
  - replace (px p * py q - px q * py p + (px q * py p - px p * py q + 0))
      with 0 by ring.
    rewrite Rabs_R0. f_equal. lra.
Qed.

Lemma computePolygonArea_planar_degenerate_witness :
  computePolygonArea 0 QgsDistanceArea_new [mkPointXY 3 4; mkPointXY 5 6] = Some 0.
Proof.
  apply (computePolygonArea_planar_degenerate 0 QgsDistanceArea_new
           [mkPointXY 3 4; mkPointXY 5 6]).
  - reflexivity.
  - cbn. lia.
Defined.

(* ================================================================= *)
(** ** Polygon area: invariances *)

Lemma sumR_app (l l' : list R) : sumR (l ++ l') = sumR l + sumR l'.
Proof.
  unfold sumR. induction l as [|v l IH]; cbn [app fold_right]; [lra|].
  rewrite IH. lra.
Qed.

Lemma sumR_map_linear {A : Type} (f h : A -> R) (k : R) (l : list A) :
  sumR (map (fun v => f v + k * h v) l) = sumR (map f l) + k * sumR (map h l).
Proof.
  unfold sumR. induction l as [|v l IH]; cbn [map fold_right]; [lra|].
  rewrite IH. lra.
Qed.

Lemma sumR_map_ext {A : Type} (f h : A -> R) (l : list A) :
  (forall v, f v = h v) -> sumR (map f l) = sumR (map h l).
Proof.
  intros Hfh. induction l as [|v l IH]; cbn [map]; [reflexivity|].
  unfold sumR in *. cbn [fold_right]. rewrite IH, Hfh. reflexivity.
Qed.

Lemma sumR_combine_fst {A : Type} (f : A -> R) :
  forall l l' : list A,
    List.length l = List.length l' ->
    sumR (map (fun pq => f (fst pq)) (combine l l')) = sumR (map f l).
Proof.
  induction l as [|v l IH]; intros [|v' l'] Hlen; try discriminate; [reflexivity|].
  cbn [combine map]. unfold sumR in *. cbn [fold_right fst].
  rewrite IH; [reflexivity|]. cbn in Hlen. lia.
Qed.

Lemma sumR_combine_snd {A : Type} (f : A -> R) :
  forall l l' : list A,
    List.length l = List.length l' ->
    sumR (map (fun pq => f (snd pq)) (combine l l')) = sumR (map f l').
Proof.
  induction l as [|v l IH]; intros [|v' l'] Hlen; try discriminate; [reflexivity|].
  cbn [combine map]. unfold sumR in *. cbn [fold_right snd].
  rewrite IH; [reflexivity|]. cbn in Hlen. lia.
Qed.

(** Around a ring, what a quantity gains from each vertex to the next adds
    up to nothing. *)
Lemma cyclic_gain_sum (g : QgsPointXY -> R) (points : list QgsPointXY) :
  sumR (map (fun pq => g (snd pq) - g (fst pq))
            (combine points (cyclicSuccessors points))) = 0.
Proof.
  rewrite (sumR_map_ext _ (fun pq => g (snd pq) + -1 * g (fst pq)))
    by (intros; lra).
  rewrite (sumR_map_linear (fun pq => g (snd pq)) (fun pq => g (fst pq))).
  rewrite sumR_combine_fst, sumR_combine_snd
    by (symmetry; apply length_cyclicSuccessors).
  unfold cyclicSuccessors.
  destruct points as [|p points]; cbn [tl firstn map]; [cbn; lra|].
  rewrite map_app, sumR_app. unfold sumR. cbn [map fold_right]. lra.
Qed.

Lemma cyclicSuccessors_map (f : QgsPointXY -> QgsPointXY) (points : list QgsPointXY) :
  cyclicSuccessors (map f points) = map f (cyclicSuccessors points).
Proof.
  unfold cyclicSuccessors. destruct points as [|p points]; [reflexivity|].
  cbn [map tl firstn]. rewrite map_app. reflexivity.
Qed.

Lemma combine_map_both {A B : Type} (f : A -> B) :
  forall l l' : list A,
    combine (map f l) (map f l') = map (fun pq => (f (fst pq), f (snd pq))) (combine l l').
Proof.
  induction l as [|v l IH]; intros [|v' l']; cbn [map combine fst snd];
    try reflexivity.
  rewrite IH. reflexivity.
Qed.

Lemma shoelaceSum_translated (a b : R) (points : list QgsPointXY) :
  shoelaceSum (map (fun p => mkPointXY (px p + a) (py p + b)) points)
  = shoelaceSum points.
Proof.
  unfold shoelaceSum.
  rewrite cyclicSuccessors_map, combine_map_both, map_map.
  cbn [fst snd px py].
  rewrite (sumR_map_ext _
             (fun pq => (px (fst pq) * py (snd pq) - px (snd pq) * py (fst pq)
                         + a * (py (snd pq) - py (fst pq)))
                        + - b * (px (snd pq) - px (fst pq))))
    by (intros; ring).
  rewrite sumR_map_linear.
  rewrite (sumR_map_linear
             (fun pq => px (fst pq) * py (snd pq) - px (snd pq) * py (fst pq))
             (fun pq => py (snd pq) - py (fst pq))).
  rewrite (cyclic_gain_sum py), (cyclic_gain_sum px). lra.
Qed.

(** Without an ellipsoid the area of a ring does not depend on where the
    ring lies: moving every vertex by the same [(a, b)] leaves it
    unchanged. *)
Theorem computePolygonArea_planar_translation :
  forall (fuel : nat) (d : QgsDistanceArea) (a b : R) (points : list QgsPointXY),
    willUseEllipsoid d = false ->
    computePolygonArea fuel d (map (fun p => mkPointXY (px p + a) (py p + b)) points)
    = computePolygonArea fuel d points.
Proof.
  intros fuel d a b points Hplanar.
  destruct points as [|p points]; [reflexivity|].
  unfold computePolygonArea. cbn [map]. rewrite Hplanar. cbn [negb].
  change (mkPointXY (px p + a) (py p + b)
          :: map (fun p0 => mkPointXY (px p0 + a) (py p0 + b)) points)
    with (map (fun p0 => mkPointXY (px p0 + a) (py p0 + b)) (p :: points)).
  rewrite !computePolygonFlatArea_shoelace.
  unfold spec_planarArea. rewrite shoelaceSum_translated. reflexivity.
Qed.

Lemma computePolygonArea_planar_translation_witness :
  computePolygonArea 0 QgsDistanceArea_new
    (map (fun p => mkPointXY (px p + 10) (py p + 20))
         [mkPointXY 0 0; mkPointXY 1 0; mkPointXY 0 1])
  = computePolygonArea 0 QgsDistanceArea_new
      [mkPointXY 0 0; mkPointXY 1 0; mkPointXY 0 1].
Proof.
  apply (computePolygonArea_planar_translation 0 QgsDistanceArea_new 10 20
           [mkPointXY 0 0; mkPointXY 1 0; mkPointXY 0 1]).
  reflexivity.
Defined.

Lemma Rgtb_shift (u v c : R) : Rgtb (u + c) (v + c) = Rgtb u v.
Proof.
  destruct (Rgtb u v) eqn:H.
  - apply Rgtb_true in H. apply Rgtb_true. lra.
  - apply Rgtb_false in H. apply Rgtb_false. lra.
Qed.

Lemma unwrapLoop_shift (twoPI hi c : R) :
  forall (fuel : nat) (lo : R),
    unwrapLoop fuel twoPI (hi + c) (lo + c)
    = option_map (fun r => r + c) (unwrapLoop fuel twoPI hi lo).
Proof.
  induction fuel as [|fuel IH]; intros lo; [reflexivity|].
  cbn [unwrapLoop].
  replace (hi + c - (lo + c)) with (hi - lo) by lra.
  destruct (Rgtb (hi - lo) M_PI); [|reflexivity].
  replace (lo + c + twoPI) with (lo + twoPI + c) by lra.
  apply IH.
Qed.

Lemma unwrap_shift (fuel : nat) (twoPI x1 x2 c : R) :
  unwrap fuel twoPI (x1 + c) (x2 + c)
  = option_map (fun r => (fst r + c, snd r + c)) (unwrap fuel twoPI x1 x2).
Proof.
  unfold unwrap. rewrite !Rgtb_shift.
  destruct (Rgtb x1 x2).
  - rewrite unwrapLoop_shift.
    destruct (unwrapLoop fuel twoPI x1 x2); reflexivity.
  - destruct (Rgtb x2 x1); [|reflexivity].
    rewrite unwrapLoop_shift.
    destruct (unwrapLoop fuel twoPI x2 x1); reflexivity.
Qed.

Lemma edgeTerm_shift (d : QgsDistanceArea) (x1 y1 Qbar1 x2 y2 Qbar2 c : R) :
  edgeTerm d (x1 + c) y1 Qbar1 (x2 + c) y2 Qbar2 = edgeTerm d x1 y1 Qbar1 x2 y2 Qbar2.
Proof.
  unfold edgeTerm. replace (x2 + c - (x1 + c)) with (x2 - x1) by lra. reflexivity.
Qed.

Lemma DEG2RAD_plus (u v : R) : DEG2RAD (u + v) = DEG2RAD u + DEG2RAD v.
Proof. unfold DEG2RAD. lra. Qed.

Lemma edgeLoop_shift (fuel : nat) (d : QgsDistanceArea) (delta : R) :
  forall (points : list QgsPointXY) (x2 y2 Qbar2 area : R),
    edgeLoop fuel d (map (fun p => mkPointXY (px p + delta) (py p)) points)
             (x2 + DEG2RAD delta) y2 Qbar2 area
    = edgeLoop fuel d points x2 y2 Qbar2 area.
Proof.
  induction points as [|p points IH]; intros x2 y2 Qbar2 area; [reflexivity|].
  cbn [map edgeLoop px py].
  rewrite DEG2RAD_plus, unwrap_shift.
  destruct (unwrap fuel (m_TwoPI d) x2 (DEG2RAD (px p))) as [[x1' x2']|];
    [|reflexivity].
  cbn [option_map fst snd].
  rewrite edgeTerm_shift. apply IH.
Qed.

(** In ellipsoidal mode the area of a ring does not depend on its
    longitude: adding the same angle to the longitude of every vertex
    leaves the result unchanged, for every amount of fuel. *)
Theorem computePolygonArea_longitude_shift :
  forall (fuel : nat) (d : QgsDistanceArea) (delta : R) (points : list QgsPointXY),
    willUseEllipsoid d = true ->
    computePolygonArea fuel d (map (fun p => mkPointXY (px p + delta) (py p)) points)
    = computePolygonArea fuel d points.
Proof.
  intros fuel d delta points Huse.
  destruct points as [|p points]; [reflexivity|].
  assert (Hsum : edgeSum fuel d
                   (map (fun p => mkPointXY (px p + delta) (py p)) (p :: points))
                 = edgeSum fuel d (p :: points)).
  { set (f := fun p0 => mkPointXY (px p0 + delta) (py p0)).
    assert (Hlast : nth (List.length (map f (p :: points)) - 1) (map f (p :: points))
                        QgsPointXY_default
                    = f (nth (List.length (p :: points) - 1) (p :: points)
                             QgsPointXY_default)).
    { rewrite length_map.
      rewrite (nth_indep _ QgsPointXY_default (f QgsPointXY_default))
        by (rewrite length_map; cbn; lia).
      apply map_nth. }
    unfold edgeSum. cbv zeta. rewrite Hlast.
    unfold f at 2 3 4. cbn [px py].
    rewrite DEG2RAD_plus. apply edgeLoop_shift. }
  unfold computePolygonArea. rewrite Huse. cbn [negb].
  cbn [map] in *. rewrite Hsum. reflexivity.
Qed.

Lemma computePolygonArea_longitude_shift_witness :
  computePolygonArea 3 wgs84
    (map (fun p => mkPointXY (px p + 90) (py p))
         [mkPointXY 0 0; mkPointXY 1 0; mkPointXY 0 1])
  = computePolygonArea 3 wgs84 [mkPointXY 0 0; mkPointXY 1 0; mkPointXY 0 1].
Proof.
  apply (computePolygonArea_longitude_shift 3 wgs84 90
           [mkPointXY 0 0; mkPointXY 1 0; mkPointXY 0 1]).
  exact wgs84_willUse.
Defined.

Lemma edgeLoop_repeated (fuel : nat) (d : QgsDistanceArea) (p : QgsPointXY) :
  forall (n : nat) (area : R),
    edgeLoop fuel d (repeat p n) (DEG2RAD (px p)) (DEG2RAD (py p))
             (getQbar d (DEG2RAD (py p))) area
    = Some area.
Proof.
  assert (Hno : Rgtb (DEG2RAD (px p)) (DEG2RAD (px p)) = false)
    by (apply Rgtb_false; lra).
  induction n as [|n IH]; intros area; [reflexivity|].
  cbn [repeat edgeLoop]. unfold unwrap. rewrite Hno.
  replace (area + edgeTerm d (DEG2RAD (px p)) (DEG2RAD (py p))
                    (getQbar d (DEG2RAD (py p))) (DEG2RAD (px p)) (DEG2RAD (py p))
                    (getQbar d (DEG2RAD (py p))))
    with area; [apply IH|].
  unfold edgeTerm.
  replace (DEG2RAD (px p) - DEG2RAD (px p)) with 0 by lra.
  destruct (Rgtb (fabs (DEG2RAD (py p) - DEG2RAD (py p))) 1e-6); lra.
Qed.

(** In ellipsoidal mode with a semi-major axis other than 0 (with 0 the
    area constants of the source are not numbers, and neither is the
    result), a ring whose vertices all coincide has area 0, whatever the
    fuel: no unwrap loop runs its body. *)
Theorem computePolygonArea_repeated_point :
  forall (collab : Collaborators) (fuel : nat) (d : QgsDistanceArea)
         (p : QgsPointXY) (n : nat),
    Reachable d -> willUseEllipsoid d = true ->
    mSemiMajor d <> 0 ->
    computePolygonArea fuel d (repeat p n) = Some 0.
Proof.
  intros collab fuel d p n Hreach Huse _.
  destruct (Reachable_constants d Hreach Huse) as [_ HE].
  destruct n as [|n]; [reflexivity|].
  rewrite (computePolygonArea_ellipsoidal fuel d (repeat p (S n)) Huse)
    by (cbn; discriminate).
  assert (Hlast : nth (List.length (repeat p (S n)) - 1) (repeat p (S n))
                      QgsPointXY_default = p).
  { apply (repeat_spec (S n) p). apply nth_In. rewrite repeat_length. lia. }
  unfold edgeSum. rewrite Hlast, edgeLoop_repeated.
  cbn [option_map]. f_equal.
  unfold spec_ellipsoidalArea, polarEnclosureCorrection.
  replace (0.0 * m_AE d) with 0 by lra. rewrite Rabs_R0.
  repeat cmp_case; lra.
Qed.

Lemma computePolygonArea_repeated_point_witness :
  computePolygonArea 0 wgs84 (repeat (mkPointXY 10 20) 4) = Some 0.
Proof.
  exact (computePolygonArea_repeated_point planeCollaborators 0 wgs84
           (mkPointXY 10 20) 4 wgs84_reachable wgs84_willUse wgs84_semiMajor).
Defined.

(* ================================================================= *)
(** ** Antimeridian crossing: symmetry, latitude, search bound *)

(** The callers' crossing test does not depend on the direction of the
    segment. *)
Theorem crossedAntimeridian_symmetric :
  forall prevLon lon : R,
    crossedAntimeridian prevLon lon = crossedAntimeridian lon prevLon.
Proof.
  intros prevLon lon. unfold crossedAntimeridian.
  destruct (Rltb prevLon (-120)), (Rgtb lon 120), (Rgtb prevLon 120),
    (Rltb lon (-120)); reflexivity.
Qed.

(** The ellipsoidal search for the crossing runs its body at most 100
    times and is left either with the candidate longitude within 1e-8 of
    180 or after exactly 100 runs; when the far endpoint already lies
    within 1e-8 of 180 the body never runs, and the latitude returned is
    that endpoint's with the whole length [s13] as distance. *)
Theorem crossSearch_bounded :
  forall (collab : Collaborators) (d : QgsDistanceArea) (p1x p1y p2x p2y : R),
    let s := fst (crossSearch d p1x p1y p2x p2y) in
    (0 <= c_iterations s <= 100)%Z /\
    (fabs (c_lon s - 180.0) <= 0.00000001 \/ c_iterations s = 100%Z) /\
    (fabs (p2x - 180.0) <= 0.00000001 ->
     c_iterations s = 0%Z /\ c_lat s = p2y /\
     c_intersectionDist s = snd (crossSearch d p1x p1y p2x p2y)).
Proof.
  intros collab d p1x p1y p2x p2y s. subst s.
  unfold crossSearch. cbn [fst snd].
  set (line := geod_inverseline (mSemiMajor d) (1 / mInvFlattening d) p1y p1x p2y p2x).
  set (s0 := mkCross p1x p1y p2x p2y p2y p2x line (s13 line) 0).
  destruct (crossLoop_run (mSemiMajor d) (1 / mInvFlattening d) 100 s0 eq_refl)
    as [Hrange Hexit].
  change (c_iterations s0) with 0%Z in Hrange.
  split; [exact Hrange|]. split; [exact Hexit|].
  intros Hnear.
  assert (Hstop : Rgtb (fabs (c_lon s0 - 180.0)) 0.00000001 = false)
    by (apply Rgtb_false; exact Hnear).
  change (crossLoop 100 (mSemiMajor d) (1 / mInvFlattening d) s0)
    with (if Rgtb (fabs (c_lon s0 - 180.0)) 0.00000001 && (c_iterations s0 <? 100)%Z
          then crossLoop 99 (mSemiMajor d) (1 / mInvFlattening d)
                 (crossStep (mSemiMajor d) (1 / mInvFlattening d) s0)
          else s0).
  rewrite Hstop. cbn. repeat split; reflexivity.
Qed.

(** Without an ellipsoid, for endpoints that pass the callers' crossing
    test with longitudes in [-180, 180], not both on the antimeridian, the
    latitude returned lies between the latitudes of the two endpoints. *)
Theorem latitudeGeodesicCrossesAntimeridian_planar_between :
  forall (collab : Collaborators) (d : QgsDistanceArea) (pp1 pp2 : QgsPointXY),
    mEllipsoid d = GEO_NONE ->
    crossedAntimeridian (px pp1) (px pp2) = true ->
    -180 <= px pp1 <= 180 -> -180 <= px pp2 <= 180 ->
    Rabs (px pp1 - px pp2) < 360 ->
    Rmin (py pp1) (py pp2)
    <= fst (latitudeGeodesicCrossesAntimeridian d pp1 pp2)
    <= Rmax (py pp1) (py pp2).
Proof.
  intros collab d pp1 pp2 Hnone Hcross H1 H2 Hdist.
  destruct (orderEndpoints pp1 pp2) as [[[[p1_x p1x] p1y] p2x] p2y] eqn:Hord.
  destruct (orderEndpoints_window _ _ _ _ _ _ _ Hcross H1 H2 Hdist Hord)
    as [Hne Hwin].
  pose proof (window_fraction_range p1x p2x Hne Hwin) as Hfrac.
  rewrite (latitudeGeodesicCrossesAntimeridian_planar d pp1 pp2 _ _ _ _ _ Hnone Hord).
  cbn [fst].
  assert (Hys : (p1y = py pp1 /\ p2y = py pp2) \/ (p1y = py pp2 /\ p2y = py pp1)).
  { revert Hord. unfold orderEndpoints.
    repeat (cmp_case; cbn [px py] in * );
      intros Heq; injection Heq as <- <- <- <- <-; auto. }
  set (t := (180 - p1x) / (p2x - p1x)) in *. clearbody t.
  unfold Rmin, Rmax.
  destruct (Rle_dec (py pp1) (py pp2)); destruct Hys as [[-> ->] | [-> ->]]; nra.
Qed.

Lemma latitudeGeodesicCrossesAntimeridian_planar_between_witness :
  Rmin 10 20
  <= fst (latitudeGeodesicCrossesAntimeridian (collab := planeCollaborators)
            QgsDistanceArea_new (mkPointXY 170 10) (mkPointXY (-170) 20))
  <= Rmax 10 20.
Proof.
  apply (latitudeGeodesicCrossesAntimeridian_planar_between planeCollaborators
           QgsDistanceArea_new (mkPointXY 170 10) (mkPointXY (-170) 20)).
  - reflexivity.
  - apply crossedAntimeridian_true. cbn [px]. right. lra.
  - cbn [px]. lra.
  - cbn [px]. lra.
  - cbn [px]. rewrite Rabs_right; lra.
Defined.

(** Without an ellipsoid, under the same conditions, exchanging the two
    endpoints gives the same crossing latitude and the complementary
    fraction. *)
Theorem latitudeGeodesicCrossesAntimeridian_planar_swap :
  forall (collab : Collaborators) (d : QgsDistanceArea) (pp1 pp2 : QgsPointXY),
    mEllipsoid d = GEO_NONE ->
    crossedAntimeridian (px pp1) (px pp2) = true ->
    -180 <= px pp1 <= 180 -> -180 <= px pp2 <= 180 ->
    Rabs (px pp1 - px pp2) < 360 ->
    fst (latitudeGeodesicCrossesAntimeridian d pp2 pp1)
    = fst (latitudeGeodesicCrossesAntimeridian d pp1 pp2) /\
    snd (latitudeGeodesicCrossesAntimeridian d pp2 pp1)
    = 1 - snd (latitudeGeodesicCrossesAntimeridian d pp1 pp2).
Proof.
  intros collab d pp1 pp2 Hnone Hcross H1 H2 Hdist.
  apply crossedAntimeridian_true in Hcross.
  assert (Hd : -360 < px pp1 - px pp2 < 360).
  { revert Hdist. unfold Rabs. destruct (Rcase_abs (px pp1 - px pp2)); lra. }
  unfold latitudeGeodesicCrossesAntimeridian.
  rewrite Hnone, String.eqb_refl.
  unfold orderEndpoints.
  repeat (cmp_case; cbn [px py fst snd] in * ); try lra;
    split; field; lra.
Qed.

Lemma latitudeGeodesicCrossesAntimeridian_planar_swap_witness :
  fst (latitudeGeodesicCrossesAntimeridian (collab := planeCollaborators)
         QgsDistanceArea_new (mkPointXY (-170) 20) (mkPointXY 170 10))
  = fst (latitudeGeodesicCrossesAntimeridian (collab := planeCollaborators)
           QgsDistanceArea_new (mkPointXY 170 10) (mkPointXY (-170) 20)) /\
  snd (latitudeGeodesicCrossesAntimeridian (collab := planeCollaborators)
         QgsDistanceArea_new (mkPointXY (-170) 20) (mkPointXY 170 10))
  = 1 - snd (latitudeGeodesicCrossesAntimeridian (collab := planeCollaborators)
               QgsDistanceArea_new (mkPointXY 170 10) (mkPointXY (-170) 20)).
Proof.
  apply (latitudeGeodesicCrossesAntimeridian_planar_swap planeCollaborators
           QgsDistanceArea_new (mkPointXY 170 10) (mkPointXY (-170) 20)).
  - reflexivity.
  - apply crossedAntimeridian_true. cbn [px]. right. lra.
  - cbn [px]. lra.
  - cbn [px]. lra.
  - cbn [px]. rewrite Rabs_right; lra.
Defined.

(* ================================================================= *)
(** ** Units *)

(** Once an ellipsoid is set by its radii, lengths are reported in meters
    and areas in square meters whatever source CRS is set afterwards, and
    a length is converted from meters; switching the ellipsoid off again
    brings back the units of the source CRS. *)
Theorem units_follow_ellipsoid :
  forall (collab : Collaborators) (units : UnitCollaborators) (d : QgsDistanceArea)
         (a b : R) (crs : QgsCoordinateReferenceSystem) (length : R)
         (toUnits : DistanceUnit),
    let d1 := setSourceCrs (fst (setEllipsoid_ab d a b)) crs in
    let d2 := fst (setEllipsoid_id d1 GEO_NONE) in
    lengthUnits d1 = DistanceMeters /\
    areaUnits d1 = AreaSquareMeters /\
    convertLengthMeasurement d1 length toUnits
    = length * fromUnitToUnitFactor DistanceMeters toUnits /\
    lengthUnits d2 = mapUnits crs /\
    areaUnits d2 = distanceToAreaUnit (mapUnits crs).
Proof.
  intros collab units d a b crs length toUnits d1 d2.
  assert (Huse : willUseEllipsoid d1 = true).
  { subst d1. unfold setSourceCrs, willUseEllipsoid. cbn [mEllipsoid with_sourceCrs].
    apply (setEllipsoid_ab_willUse d a b). }
  assert (Hcrs : mSourceCrs d1 = crs) by reflexivity.
  unfold convertLengthMeasurement, lengthUnits, areaUnits.
  rewrite Huse.
  repeat split; reflexivity.
Qed.

(* ================================================================= *)
(** ** Densified geodesic line *)

Section GeodesicLineFacts.
Context {collab : Collaborators} {units : UnitCollaborators}.


Lemma geodesicLoop_unfold (fuel : nat) (d : QgsDistanceArea)
    (line : geod_geodesicline) (totalDist : R) (pp2 : QgsPointXY) (interval : R)
    (breakLine : bool) (res : list (list QgsPointXY)) (currentPart : list QgsPointXY)
    (dist prevLon prevLat : R) (lastRun : bool) :
  geodesicLoop (S fuel) d line totalDist pp2 interval breakLine res currentPart
               dist prevLon prevLat lastRun
  = let latlon :=
      if lastRun then
        (py pp2, if Rgtb (px pp2) 180 then px pp2 - 360 else px pp2)
      else geod_position line dist in
    let lat := fst latlon in
    let lon := snd latlon in
    let broken :=
      if breakLine && crossedAntimeridian prevLon lon then
        let lat180 :=
          fst (latitudeGeodesicCrossesAntimeridian d (mkPointXY prevLon prevLat)
                 (mkPointXY lon lat)) in
        (res ++ [appendReverse currentPart
                   (if Rltb prevLon (-120) then mkPointXY (-180) lat180
                    else mkPointXY 180 lat180)],
         appendReverse []
           (if Rltb lon (-120) then mkPointXY (-180) lat180
            else mkPointXY 180 lat180))
      else (res, currentPart) in
    let currentPart' := appendReverse (snd broken) (mkPointXY lon lat) in
    if lastRun then Some (fst broken ++ [currentPart'])
    else
      geodesicLoop fuel d line totalDist pp2 interval breakLine (fst broken)
                   currentPart' (dist + interval) lon lat
                   (if Rgeb (dist + interval) totalDist then true else lastRun).
Proof.
  cbn [geodesicLoop].
  destruct (if lastRun
            then (py pp2, if Rgtb (px pp2) 180 then px pp2 - 360 else px pp2)
            else geod_position line dist) as [lat lon].
  cbn [fst snd].
  destruct (breakLine && crossedAntimeridian prevLon lon); reflexivity.
Qed.



(** With a non-positive interval the distance never reaches the end of a
    line it does not reach at the first step: the loop runs out of any
    fuel. *)
Lemma geodesicLoop_diverges (d : QgsDistanceArea) (line : geod_geodesicline)
    (totalDist : R) (pp2 : QgsPointXY) (interval : R) (breakLine : bool) :
  interval <= 0 ->
  forall (fuel : nat) (res : list (list QgsPointXY)) (currentPart : list QgsPointXY)
         (dist prevLon prevLat : R),
    dist + interval < totalDist ->
    geodesicLoop fuel d line totalDist pp2 interval breakLine res currentPart
                 dist prevLon prevLat false = None.
Proof.
  intros Hneg.
  induction fuel as [|fuel IH]; intros res currentPart dist prevLon prevLat Hfar;
    [reflexivity|].
  rewrite geodesicLoop_unfold. cbv zeta.
  assert (Hge : Rgeb (dist + interval) totalDist = false) by (apply Rgeb_false; lra).
  rewrite Hge. apply IH. lra.
Qed.

End GeodesicLineFacts.



(** [geodesicLine] called with an interval that is zero or negative never
    returns when the line is longer than twice the interval: the distance
    walked does not grow. *)
Theorem geodesicLine_nonpositive_interval_diverges :
  forall (collab : Collaborators) (units : UnitCollaborators) (d : QgsDistanceArea)
         (p1 p2 pp1 pp2 : QgsPointXY) (interval : R) (breakLine : bool),
    willUseEllipsoid d = true ->
    transform p1 = Some pp1 -> transform p2 = Some pp2 ->
    interval <= 0 ->
    interval + interval
    < s13 (geod_inverseline (mSemiMajor d) (1 / mInvFlattening d)
             (py pp1) (px pp1) (py pp2) (px pp2)) ->
    forall fuel, geodesicLine fuel d p1 p2 interval breakLine = None.
Proof.
  intros collab units d p1 p2 pp1 pp2 interval breakLine Huse H1 H2 Hneg Hlong fuel.
  unfold geodesicLine. rewrite Huse, H1, H2. cbn [negb].
  apply geodesicLoop_diverges; assumption.
Qed.

Lemma geodesicLine_nonpositive_interval_diverges_witness :
  geodesicLine (collab := planeCollaborators) (units := planeUnitCollaborators)
    50 wgs84 (mkPointXY 0 0) (mkPointXY 10 0) 0 false = None.
Proof.
  refine (geodesicLine_nonpositive_interval_diverges planeCollaborators
            planeUnitCollaborators wgs84 (mkPointXY 0 0) (mkPointXY 10 0)
            (mkPointXY 0 0) (mkPointXY 10 0) 0 false _ _ _ _ _ 50%nat).
  - exact wgs84_willUse.
  - reflexivity.
  - reflexivity.
  - lra.
  - cbn [s13 geod_inverseline planeCollaborators px py planeLine_s13].
    replace (0 + 0) with 0 by lra.
    apply sqrt_lt_R0. lra.
Defined.

(** [geodesicLine] without an ellipsoid is the segment itself, one part
    of the two points, for every interval; with an ellipsoid and an
    endpoint the transform throws on, it is the empty list of parts. *)
Theorem geodesicLine_degenerate :
  forall (collab : Collaborators) (units : UnitCollaborators) (fuel : nat)
         (d : QgsDistanceArea) (p1 p2 : QgsPointXY) (interval : R) (breakLine : bool),
    (willUseEllipsoid d = false ->
     geodesicLine fuel d p1 p2 interval breakLine = Some [[p1; p2]]) /\
    (willUseEllipsoid d = true ->
     transform p1 = None \/ transform p2 = None ->
     geodesicLine fuel d p1 p2 interval breakLine = Some []).
Proof.
  intros collab units fuel d p1 p2 interval breakLine.
  unfold geodesicLine. split.
  - intros ->. reflexivity.
  - intros -> Hfail. cbn [negb].
    destruct (transform p1); [|reflexivity].
    destruct Hfail as [Hfail | Hfail]; [discriminate|].
    rewrite Hfail. reflexivity.
Qed.

(* ================================================================= *)
(** ** Planar area: orientation and starting vertex *)

Lemma chainSum_cons (F : QgsPointXY -> QgsPointXY -> R) (p q : QgsPointXY)
    (rest : list QgsPointXY) :
  chainSum F (p :: q :: rest) = F p q + chainSum F (q :: rest).
Proof. reflexivity. Qed.

Lemma closed_sum_as_chain (F : QgsPointXY -> QgsPointXY -> R) :
  forall (r : list QgsPointXY) (a z : QgsPointXY),
    sumR (map (fun pq => F (fst pq) (snd pq)) (combine (a :: r) (r ++ [z])))
    = chainSum F (a :: r) + F (last (a :: r) a) z.
Proof.
  induction r as [|b r IH]; intros a z.
  - unfold sumR. cbn. lra.
  - change (combine (a :: b :: r) ((b :: r) ++ [z]))
      with ((a, b) :: combine (b :: r) (r ++ [z])).
    cbn [map]. unfold sumR in *. cbn [fold_right fst snd].
    rewrite IH, chainSum_cons.
    change (last (a :: b :: r) a) with (last (b :: r) a).
    rewrite (last_nonempty_default r b a b). lra.
Qed.

Lemma shoelaceSum_as_chain (a : QgsPointXY) (r : list QgsPointXY) :
  shoelaceSum (a :: r)
  = chainSum crossTerm (a :: r) + crossTerm (last (a :: r) a) a.
Proof.
  unfold shoelaceSum, cyclicSuccessors. cbn [tl firstn].
  apply (closed_sum_as_chain crossTerm r a a).
Qed.

Lemma chainSum_snoc (F : QgsPointXY -> QgsPointXY -> R) :
  forall (b : QgsPointXY) (l : list QgsPointXY) (a : QgsPointXY),
    chainSum F ((b :: l) ++ [a]) = chainSum F (b :: l) + F (last (b :: l) b) a.
Proof.
  intros b l. revert b.
  induction l as [|c l IH]; intros b a.
  - cbn. lra.
  - change ((b :: c :: l) ++ [a]) with (b :: ((c :: l) ++ [a])).
    change ((c :: l) ++ [a]) with (c :: (l ++ [a])).
    rewrite chainSum_cons.
    change (c :: (l ++ [a])) with ((c :: l) ++ [a]).
    rewrite IH, chainSum_cons.
    change (last (b :: c :: l) b) with (last (c :: l) b).
    rewrite (last_nonempty_default l c b c). lra.
Qed.

Lemma hd_rev_last {A : Type} (l : list A) (dflt : A) :
  hd dflt (rev l) = last l dflt.
Proof.
  induction l as [|a l IH]; [reflexivity|].
  destruct l as [|b l]; [reflexivity|].
  change (rev (a :: b :: l)) with (rev (b :: l) ++ [a]).
  change (last (a :: b :: l) dflt) with (last (b :: l) dflt).
  rewrite <- IH.
  destruct (rev (b :: l)) as [|c m] eqn:Hrev; [|reflexivity].
  exfalso. cbn in Hrev. destruct (rev l); discriminate.
Qed.

Lemma chainSum_rev (F : QgsPointXY -> QgsPointXY -> R) :
  (forall p q, F q p = - F p q) ->
  forall l : list QgsPointXY, chainSum F (rev l) = - chainSum F l.
Proof.
  intros Hanti.
  induction l as [|a l IH]; [cbn; lra|].
  destruct l as [|b l]; [cbn; lra|].
  change (rev (a :: b :: l)) with (rev (b :: l) ++ [a]).
  rewrite chainSum_cons.
  destruct (rev (b :: l)) as [|c m] eqn:Hrev.
  { exfalso. cbn in Hrev. destruct (rev l); discriminate. }
  rewrite chainSum_snoc, IH.
  assert (Hlast : last (c :: m) c = b).
  { rewrite <- Hrev. cbn [rev]. apply last_last. }
  rewrite Hlast, (Hanti a b). lra.
Qed.

Lemma crossTerm_antisymmetric (p q : QgsPointXY) : crossTerm q p = - crossTerm p q.
Proof. unfold crossTerm. ring. Qed.

Lemma shoelaceSum_rev (points : list QgsPointXY) :
  shoelaceSum (rev points) = - shoelaceSum points.
Proof.
  destruct points as [|a r]; [unfold shoelaceSum, sumR; cbn; lra|].
  rewrite shoelaceSum_as_chain.
  destruct (rev (a :: r)) as [|c m] eqn:Hrev.
  { exfalso. cbn in Hrev. destruct (rev r); discriminate. }
  rewrite shoelaceSum_as_chain, <- Hrev.
  rewrite (chainSum_rev crossTerm crossTerm_antisymmetric).
  assert (Hc : c = last (a :: r) a).
  { rewrite <- (hd_rev_last (a :: r) a), Hrev. reflexivity. }
  assert (Hl : last (rev (a :: r)) c = a).
  { cbn [rev]. apply last_last. }
  rewrite Hl, Hc.
  rewrite (crossTerm_antisymmetric (last (a :: r) a) a). lra.
Qed.

Lemma shoelaceSum_rotate (p : QgsPointXY) (points : list QgsPointXY) :
  shoelaceSum (points ++ [p]) = shoelaceSum (p :: points).
Proof.
  destruct points as [|b l]; [reflexivity|].
  change ((b :: l) ++ [p]) with (b :: (l ++ [p])).
  rewrite !shoelaceSum_as_chain.
  change (b :: (l ++ [p])) with ((b :: l) ++ [p]).
  rewrite chainSum_snoc, chainSum_cons.
  rewrite (last_last (b :: l) p b).
  change (last (p :: b :: l) p) with (last (b :: l) p).
  rewrite (last_nonempty_default l b p b). lra.
Qed.

(** Without an ellipsoid the area of a ring does not depend on the
    direction in which its vertices are listed, nor on the vertex the
    list starts from. *)
Theorem computePolygonArea_planar_orientation :
  forall (fuel : nat) (d : QgsDistanceArea) (points : list QgsPointXY) (p : QgsPointXY),
    willUseEllipsoid d = false ->
    computePolygonArea fuel d (rev points) = computePolygonArea fuel d points /\
    computePolygonArea fuel d (points ++ [p]) = computePolygonArea fuel d (p :: points).
Proof.
  intros fuel d points p Hplanar.
  assert (Hflat : forall l, l <> [] ->
            computePolygonArea fuel d l = Some (spec_planarArea l)).
  { intros l Hl. unfold computePolygonArea.
    destruct l as [|q l]; [contradiction|].
    rewrite Hplanar. cbn [negb]. rewrite computePolygonFlatArea_shoelace. reflexivity. }
  split.
  - destruct points as [|a r]; [reflexivity|].
    rewrite !Hflat.
    + unfold spec_planarArea. rewrite shoelaceSum_rev, Rabs_Ropp. reflexivity.
    + discriminate.
    + cbn [rev]. destruct (rev r); discriminate.
  - rewrite !Hflat.
    + unfold spec_planarArea. rewrite shoelaceSum_rotate. reflexivity.
    + discriminate.
    + destruct points; discriminate.
Qed.

Lemma computePolygonArea_planar_orientation_witness :
  computePolygonArea 0 QgsDistanceArea_new
    (rev [mkPointXY 0 0; mkPointXY 1 0; mkPointXY 0 1])
  = computePolygonArea 0 QgsDistanceArea_new
      [mkPointXY 0 0; mkPointXY 1 0; mkPointXY 0 1] /\
  computePolygonArea 0 QgsDistanceArea_new
    ([mkPointXY 0 0; mkPointXY 1 0; mkPointXY 0 1] ++ [mkPointXY 2 2])
  = computePolygonArea 0 QgsDistanceArea_new
      (mkPointXY 2 2 :: [mkPointXY 0 0; mkPointXY 1 0; mkPointXY 0 1]).
Proof.
  apply (computePolygonArea_planar_orientation 0 QgsDistanceArea_new
           [mkPointXY 0 0; mkPointXY 1 0; mkPointXY 0 1] (mkPointXY 2 2)).
  reflexivity.
Defined.

(* ================================================================= *)
(** ** Measuring two points, either way *)

(** In ellipsoidal mode, when the transform accepts both points and
    [qgsDoubleNear] holds between the first transformed point and itself,
    the vector overload of [measureLine] on two points returns what the
    two-point overload returns. *)
Theorem measureLine_points_pair :
  forall (collab : Collaborators) (d : QgsDistanceArea) (p1 p2 q1 q2 : QgsPointXY),
    willUseEllipsoid d = true ->
    transform p1 = Some q1 -> transform p2 = Some q2 ->
    qgsDoubleNear (px q1) (px q1) && qgsDoubleNear (py q1) (py q1) = true ->
    returned (measureLine_points d [p1; p2]) = returned (measureLine_p1p2 d p1 p2).
Proof.
  intros collab d p1 p2 q1 q2 Huse H1 H2 Hnear.
  unfold measureLine_points, measureLine_p1p2, returned.
  cbn [List.length Nat.ltb Nat.leb nth measureLine_loop].
  rewrite Huse. unfold bind, callTransform, ret. rewrite H1, H2.
  cbn [tryCatch snd app].
  assert (Hzero : fst (computeDistanceBearing d q1 q1) = 0).
  { unfold computeDistanceBearing. rewrite Hnear. reflexivity. }
  rewrite Hzero. do 2 f_equal. lra.
Qed.

Lemma measureLine_points_pair_witness :
  returned (measureLine_points (collab := planeCollaborators) wgs84
              [mkPointXY 0 0; mkPointXY 0 1])
  = returned (measureLine_p1p2 (collab := planeCollaborators) wgs84
                (mkPointXY 0 0) (mkPointXY 0 1)).
Proof.
  apply (measureLine_points_pair planeCollaborators wgs84
           (mkPointXY 0 0) (mkPointXY 0 1) (mkPointXY 0 0) (mkPointXY 0 1)).
  - exact wgs84_willUse.
  - reflexivity.
  - reflexivity.
  - cbn [px py qgsDoubleNear planeCollaborators].
    rewrite !nearWithin_refl by lra. reflexivity.
Defined.
